(** * Scene reducer and action application of the 3D simulation studio

    A shallow embedding of [frontend/src/context/SceneContext.tsx] (with the
    declarations of [frontend/src/types]): the scene data model, the reducer
    [sceneReducer], the action interpreter [applyAction] / [applyActions] of
    [SceneProvider], and the deferred highlight reversal it starts with
    [setTimeout].

    Numbers are JavaScript numbers, that is IEEE 754 binary64 values: they
    are embedded as Rocq's primitive floats, whose operations are the same
    ones.  A reading of the clock ([Date.now()]) is a whole number of
    milliseconds.

    The casts of [applyAction] ([params.color as string] and the like) check
    nothing: a parameter that is absent is [undefined] and is stored as
    such.  The fields an update can leave [undefined] are options. *)

From Stdlib Require Import Bool List String Ascii PeanoNat NArith ZArith Lia.
From Stdlib Require Import DecimalString DecimalN.
From Stdlib Require Import Floats.
Import ListNotations.

(* A decimal literal denotes the nearest binary64 value, as it does in
   JavaScript. *)
Set Warnings "-inexact-float".

Local Open Scope string_scope.
Local Open Scope list_scope.

(** ** JavaScript values used by the code *)

(** [v || d] on numbers: [0], [-0] and [NaN] are falsy. *)
Definition num_truthy (v : float) : bool :=
  negb (PrimFloat.eqb v 0%float || PrimFloat.is_nan v).

Definition num_or (v d : float) : float :=
  if num_truthy v then v else d.

(** A property that may be absent reads as [undefined]: [None]. *)
Definition opt_num_or (v : option float) (d : float) : float :=
  match v with
  | Some n => num_or n d
  | None => d
  end.

(** [s || d] on strings: the empty string is falsy. *)
Definition str_truthy (s : string) : bool :=
  match s with
  | EmptyString => false
  | String _ _ => true
  end.

Definition opt_str_or (v : option string) (d : string) : string :=
  match v with
  | Some s => if str_truthy s then s else d
  | None => d
  end.

(** [o || d] on objects: every object is truthy. *)
Definition opt_or {A : Type} (v : option A) (d : A) : A :=
  match v with
  | Some a => a
  | None => d
  end.

(** Truthiness of a possibly absent boolean. *)
Definition opt_bool_truthy (v : option bool) : bool :=
  match v with
  | Some b => b
  | None => false
  end.

(** [undefined + n] and [n + undefined] are [NaN]. *)
Definition num_of_opt (v : option float) : float :=
  match v with
  | Some n => n
  | None => PrimFloat.nan
  end.

(** The delay [setTimeout] waits for, given the number it is called with
    (the timer initialisation steps of the HTML standard): the number is
    converted to a [long], that is truncated towards zero and wrapped to a
    signed 32-bit integer, and a negative result counts as zero. *)
Definition float_trunc (f : float) : Z :=
  match Prim2SF f with
  | S754_finite s m e =>
      let magnitude :=
        if (0 <=? e)%Z then (Z.pos m * 2 ^ e)%Z else (Z.pos m / 2 ^ (- e))%Z in
      if s then (- magnitude)%Z else magnitude
  | _ => 0%Z
  end.

Definition to_int32 (n : Z) : Z :=
  let r := (n mod 2 ^ 32)%Z in
  if (r <? 2 ^ 31)%Z then r else (r - 2 ^ 32)%Z.

Definition timeout_delay (d : float) : N := Z.to_N (to_int32 (float_trunc d)).

(** The decimal rendering of a time stamp in a template literal. *)
Definition show_N (n : N) : string :=
  NilEmpty.string_of_uint (N.to_uint n).

(** ** Data model ([frontend/src/types]) *)

Record Vector3 : Type := mkVector3 {
  x : float;
  y : float;
  z : float
}.

Inductive ObjectType : Type :=
  | conveyor
  | robot_arm
  | box
  | safety_zone
  | cylinder
  | sphere
  | custom.

(** The scale of an object: [scale_object] builds it as
    [{ x: factor, y: factor, z: factor }] from a factor that can be
    [undefined], so each component is a number or [undefined]. *)
Record Scale3 : Type := mkScale3 {
  sx : option float;
  sy : option float;
  sz : option float
}.

(** A [Vector3] stored as a scale. *)
Definition scale_of (v : Vector3) : Scale3 :=
  {| sx := Some (x v); sy := Some (y v); sz := Some (z v) |}.

(** [properties?: Record<string, unknown>] is left out: no code of the
    context reads or writes it.  The optional fields are [None] when the
    property is [undefined]; so are [position], [color] and [visible],
    which the declaration requires but which an update built from an
    absent parameter sets to [undefined]. *)
Record SceneObject : Type := mkSceneObject {
  id : string;
  type : ObjectType;
  name : string;
  position : option Vector3;
  rotation : Vector3;
  scale : Scale3;
  color : option string;
  material : option string;
  visible : option bool;
  highlighted : option bool;
  animating : option bool
}.

Record CameraState : Type := mkCameraState {
  cam_position : Vector3;
  cam_target : Vector3;
  zoom : float
}.

Record LightingConfig : Type := mkLightingConfig {
  ambient_intensity : float;
  directional_intensity : float;
  directional_position : Vector3
}.

Record EnvironmentConfig : Type := mkEnvironmentConfig {
  grid_visible : bool;
  grid_size : float;
  background_color : string
}.

Record SceneData : Type := mkSceneData {
  objects : list SceneObject;
  camera : CameraState;
  lighting : LightingConfig;
  environment : EnvironmentConfig
}.

(** [params: Record<string, unknown>]: the bag of parameters, with the
    properties the code reads, each at the type the code casts it to and
    [None] when absent. *)
Record Params : Type := mkParams {
  p_type : option ObjectType;
  p_name : option string;
  p_position : option Vector3;
  p_rotation : option Vector3;
  p_scale : option Vector3;
  p_color : option string;
  p_absolute : option bool;
  p_delta : option Vector3;
  p_axis : option string;
  p_degrees : option float;
  p_factor : option float;
  p_visible : option bool;
  p_duration : option float;
  p_target : option Vector3;
  p_direction : option string;
  p_amount : option float;
  p_size : option Vector3;
  p_animate : option bool;
  p_keep_defaults : option bool;
  p_ambient_intensity : option float;
  p_directional_intensity : option float;
  p_directional_position : option Vector3
}.

(** [SceneAction]; the kind is the string the switch of [applyAction]
    compares, so that a kind outside [ActionType] can be written. *)
Record SceneAction : Type := mkSceneAction {
  action : string;
  target : option string;
  params : Params
}.

Record ActionResponse : Type := mkActionResponse {
  success : bool;
  actions : list SceneAction;
  message : string;
  original_prompt : string
}.

Record PromptHistoryEntry : Type := mkPromptHistoryEntry {
  h_id : string;
  prompt : string;
  response : ActionResponse;
  timestamp : N
}.

Record CameraTransition : Type := mkCameraTransition {
  active : bool;
  targetPosition : option Vector3;
  targetLookAt : option Vector3
}.

Record SceneState : Type := mkSceneState {
  sceneData : SceneData;
  selectedObjectId : option string;
  promptHistory : list PromptHistoryEntry;
  isLoading : bool;
  cameraTransition : CameraTransition
}.

(** ** Default scene configuration *)

Definition defaultCamera : CameraState :=
  {| cam_position := mkVector3 15 12 15;
     cam_target := mkVector3 0 1 0;
     zoom := 1 |}.

Definition defaultLighting : LightingConfig :=
  {| ambient_intensity := 0.4;
     directional_intensity := 0.8;
     directional_position := mkVector3 10 20 10 |}.

Definition defaultEnvironment : EnvironmentConfig :=
  {| grid_visible := true;
     grid_size := 50;
     background_color := "#1a1a2e" |}.

Definition conveyor_1 : SceneObject :=
  {| id := "conveyor_1";
     type := conveyor;
     name := "Main Conveyor Belt";
     position := Some (mkVector3 0 0.5 0);
     rotation := mkVector3 0 0 0;
     scale := scale_of (mkVector3 1 1 1);
     color := Some "#4a5568";
     material := None;
     visible := Some true;
     highlighted := None;
     animating := None |}.

Definition robot_arm_1 : SceneObject :=
  {| id := "robot_arm_1";
     type := robot_arm;
     name := "Industrial Robot Arm";
     position := Some (mkVector3 (-5) 0 0);
     rotation := mkVector3 0 45 0;
     scale := scale_of (mkVector3 1 1 1);
     color := Some "#f59e0b";
     material := None;
     visible := Some true;
     highlighted := None;
     animating := None |}.

(** Initial scene with default industrial elements. *)
Definition createInitialScene : SceneData :=
  {| objects := [conveyor_1; robot_arm_1];
     camera := defaultCamera;
     lighting := defaultLighting;
     environment := defaultEnvironment |}.

(** ** Reducer actions *)

(** [Partial<SceneObject>]: [None] when the key is absent.  For a field
    that can be [undefined] the key can be present and hold [undefined]:
    [Some None]. *)
Record ObjectUpdates : Type := mkObjectUpdates {
  u_id : option string;
  u_type : option ObjectType;
  u_name : option string;
  u_position : option (option Vector3);
  u_rotation : option Vector3;
  u_scale : option Scale3;
  u_color : option (option string);
  u_material : option (option string);
  u_visible : option (option bool);
  u_highlighted : option (option bool);
  u_animating : option (option bool)
}.

(** [Partial<CameraState>] *)
Record CameraUpdates : Type := mkCameraUpdates {
  cu_position : option Vector3;
  cu_target : option Vector3;
  cu_zoom : option float
}.

(** [Partial<LightingConfig>] *)
Record LightingUpdates : Type := mkLightingUpdates {
  lu_ambient_intensity : option float;
  lu_directional_intensity : option float;
  lu_directional_position : option Vector3
}.

(** [Partial<EnvironmentConfig>] *)
Record EnvironmentUpdates : Type := mkEnvironmentUpdates {
  eu_grid_visible : option bool;
  eu_grid_size : option float;
  eu_background_color : option string
}.

(** The payload of [RESET_SCENE]; [keepDefaults] holds [undefined] when it
    was copied from an absent [params.keep_defaults]. *)
Record ResetPayload : Type := mkResetPayload {
  keepDefaults : option bool
}.

(** [SceneContextAction].  [OTHER] stands for an action object whose [type]
    is none of the twelve: it reaches the [default] branch of the reducer. *)
Inductive SceneContextAction : Type :=
  | SET_SCENE_DATA (payload : SceneData)
  | ADD_OBJECT (payload : SceneObject)
  | REMOVE_OBJECT (payload : string)
  | UPDATE_OBJECT (payload_id : string) (updates : ObjectUpdates)
  | SELECT_OBJECT (payload : option string)
  | SET_CAMERA (payload : CameraUpdates)
  | SET_LIGHTING (payload : LightingUpdates)
  | SET_ENVIRONMENT (payload : EnvironmentUpdates)
  | ADD_PROMPT_HISTORY (payload : PromptHistoryEntry)
  | SET_LOADING (payload : bool)
  | SET_CAMERA_TRANSITION (payload : CameraTransition)
  | RESET_SCENE (payload : option ResetPayload)
  | OTHER (tag : string).

(** ** Object spread *)

(** One key of [{ ...old, ...updates }]: the update's value when the key is
    present, the old one otherwise. *)
Definition spread {A : Type} (old : A) (new : option A) : A :=
  match new with
  | Some a => a
  | None => old
  end.

Definition merge_object (obj : SceneObject) (u : ObjectUpdates) : SceneObject :=
  {| id := spread (id obj) (u_id u);
     type := spread (type obj) (u_type u);
     name := spread (name obj) (u_name u);
     position := spread (position obj) (u_position u);
     rotation := spread (rotation obj) (u_rotation u);
     scale := spread (scale obj) (u_scale u);
     color := spread (color obj) (u_color u);
     material := spread (material obj) (u_material u);
     visible := spread (visible obj) (u_visible u);
     highlighted := spread (highlighted obj) (u_highlighted u);
     animating := spread (animating obj) (u_animating u) |}.

Definition merge_camera (c : CameraState) (u : CameraUpdates) : CameraState :=
  {| cam_position := spread (cam_position c) (cu_position u);
     cam_target := spread (cam_target c) (cu_target u);
     zoom := spread (zoom c) (cu_zoom u) |}.

Definition merge_lighting (l : LightingConfig) (u : LightingUpdates)
  : LightingConfig :=
  {| ambient_intensity := spread (ambient_intensity l) (lu_ambient_intensity u);
     directional_intensity :=
       spread (directional_intensity l) (lu_directional_intensity u);
     directional_position :=
       spread (directional_position l) (lu_directional_position u) |}.

Definition merge_environment (e : EnvironmentConfig) (u : EnvironmentUpdates)
  : EnvironmentConfig :=
  {| grid_visible := spread (grid_visible e) (eu_grid_visible u);
     grid_size := spread (grid_size e) (eu_grid_size u);
     background_color := spread (background_color e) (eu_background_color u) |}.

(** [{ ...state.sceneData, objects: objs }] and its siblings. *)
Definition with_objects (d : SceneData) (objs : list SceneObject) : SceneData :=
  {| objects := objs;
     camera := camera d;
     lighting := lighting d;
     environment := environment d |}.

Definition with_camera (d : SceneData) (c : CameraState) : SceneData :=
  {| objects := objects d;
     camera := c;
     lighting := lighting d;
     environment := environment d |}.

Definition with_lighting (d : SceneData) (l : LightingConfig) : SceneData :=
  {| objects := objects d;
     camera := camera d;
     lighting := l;
     environment := environment d |}.

Definition with_environment (d : SceneData) (e : EnvironmentConfig) : SceneData :=
  {| objects := objects d;
     camera := camera d;
     lighting := lighting d;
     environment := e |}.

(** [{ ...state, sceneData: d }] *)
Definition with_sceneData (s : SceneState) (d : SceneData) : SceneState :=
  {| sceneData := d;
     selectedObjectId := selectedObjectId s;
     promptHistory := promptHistory s;
     isLoading := isLoading s;
     cameraTransition := cameraTransition s |}.

(** [action.payload?.keepDefaults] as a condition. *)
Definition keeps_defaults (payload : option ResetPayload) : bool :=
  match payload with
  | Some p => opt_bool_truthy (keepDefaults p)
  | None => false
  end.

(** ** The reducer *)

(** What the callback of [map] in the [UPDATE_OBJECT] case returns. *)
Definition updated (pid : string) (u : ObjectUpdates) (obj : SceneObject)
  : SceneObject :=
  if String.eqb (id obj) pid then merge_object obj u else obj.

Definition sceneReducer (state : SceneState) (act : SceneContextAction)
  : SceneState :=
  match act with
  | SET_SCENE_DATA payload => with_sceneData state payload
  | ADD_OBJECT payload =>
      with_sceneData state
        (with_objects (sceneData state)
           (objects (sceneData state) ++ [payload]))
  | REMOVE_OBJECT payload =>
      {| sceneData :=
           with_objects (sceneData state)
             (filter (fun obj => negb (String.eqb (id obj) payload))
                (objects (sceneData state)));
         selectedObjectId :=
           match selectedObjectId state with
           | Some sel => if String.eqb sel payload then None else Some sel
           | None => None
           end;
         promptHistory := promptHistory state;
         isLoading := isLoading state;
         cameraTransition := cameraTransition state |}
  | UPDATE_OBJECT payload_id updates =>
      with_sceneData state
        (with_objects (sceneData state)
           (map (updated payload_id updates) (objects (sceneData state))))
  | SELECT_OBJECT payload =>
      {| sceneData := sceneData state;
         selectedObjectId := payload;
         promptHistory := promptHistory state;
         isLoading := isLoading state;
         cameraTransition := cameraTransition state |}
  | SET_CAMERA payload =>
      with_sceneData state
        (with_camera (sceneData state)
           (merge_camera (camera (sceneData state)) payload))
  | SET_LIGHTING payload =>
      with_sceneData state
        (with_lighting (sceneData state)
           (merge_lighting (lighting (sceneData state)) payload))
  | SET_ENVIRONMENT payload =>
      with_sceneData state
        (with_environment (sceneData state)
           (merge_environment (environment (sceneData state)) payload))
  | ADD_PROMPT_HISTORY payload =>
      {| sceneData := sceneData state;
         selectedObjectId := selectedObjectId state;
         promptHistory := firstn 50 (payload :: promptHistory state);
         isLoading := isLoading state;
         cameraTransition := cameraTransition state |}
  | SET_LOADING payload =>
      {| sceneData := sceneData state;
         selectedObjectId := selectedObjectId state;
         promptHistory := promptHistory state;
         isLoading := payload;
         cameraTransition := cameraTransition state |}
  | SET_CAMERA_TRANSITION payload =>
      {| sceneData := sceneData state;
         selectedObjectId := selectedObjectId state;
         promptHistory := promptHistory state;
         isLoading := isLoading state;
         cameraTransition := payload |}
  | RESET_SCENE payload =>
      {| sceneData :=
           if keeps_defaults payload
           then createInitialScene
           else {| objects := [];
                   camera := defaultCamera;
                   lighting := defaultLighting;
                   environment := defaultEnvironment |};
         selectedObjectId := None;
         promptHistory := promptHistory state;
         isLoading := isLoading state;
         cameraTransition := cameraTransition state |}
  | OTHER _ => state
  end.

(** The state [useReducer] starts from. *)
Definition initialState : SceneState :=
  {| sceneData := createInitialScene;
     selectedObjectId := None;
     promptHistory := [];
     isLoading := false;
     cameraTransition :=
       {| active := false; targetPosition := None; targetLookAt := None |} |}.

(** ** Applying one action ([applyAction] of [SceneProvider]) *)

(** What a call leaves behind: the reducer actions it dispatched, in order,
    the time-outs it started and the warnings it logged. *)
Record Timeout : Type := mkTimeout {
  delay : float;
  timeout_id : string
}.

Record Effects : Type := mkEffects {
  dispatched : list SceneContextAction;
  started : list Timeout;
  warned : list string
}.

Definition no_effects : Effects :=
  {| dispatched := []; started := []; warned := [] |}.

Definition dispatch (act : SceneContextAction) : Effects :=
  {| dispatched := [act]; started := []; warned := [] |}.

Definition join_effects (e1 e2 : Effects) : Effects :=
  {| dispatched := dispatched e1 ++ dispatched e2;
     started := started e1 ++ started e2;
     warned := warned e1 ++ warned e2 |}.

(** A call ends normally or throws.  [TypeError] is the exception of
    reading a property of [undefined], the only one the code can raise. *)
Inductive Failure : Type :=
  | TypeError.

Inductive Outcome (A : Type) : Type :=
  | Done (a : A)
  | Failed (f : Failure).

Arguments Done {A} a.
Arguments Failed {A} f.

(** The [case] labels of the switch, in source order. *)
Inductive ActionCase : Type :=
  | Add_object
  | Remove_object
  | Move_object
  | Rotate_object
  | Scale_object
  | Set_color
  | Set_visibility
  | Highlight_object
  | Camera_focus
  | Camera_move
  | Camera_zoom
  | Add_safety_zone
  | Animate_object
  | Reset_scene
  | Set_lighting.

Definition case_labels : list (string * ActionCase) :=
  [ ("add_object", Add_object);
    ("remove_object", Remove_object);
    ("move_object", Move_object);
    ("rotate_object", Rotate_object);
    ("scale_object", Scale_object);
    ("set_color", Set_color);
    ("set_visibility", Set_visibility);
    ("highlight_object", Highlight_object);
    ("camera_focus", Camera_focus);
    ("camera_move", Camera_move);
    ("camera_zoom", Camera_zoom);
    ("add_safety_zone", Add_safety_zone);
    ("animate_object", Animate_object);
    ("reset_scene", Reset_scene);
    ("set_lighting", Set_lighting) ].

(** The action kinds the switch knows. *)
Definition ActionKinds : list string := map fst case_labels.

Fixpoint switch_on (labels : list (string * ActionCase)) (actionType : string)
  : option ActionCase :=
  match labels with
  | [] => None
  | (label, c) :: rest =>
      if String.eqb actionType label then Some c else switch_on rest actionType
  end.

(** [if (target)]: [null] and the empty string are falsy. *)
Definition truthy_target (tgt : option string) : option string :=
  match tgt with
  | Some t => if str_truthy t then Some t else None
  | None => None
  end.

(** [state.sceneData.objects.find((obj) => obj.id === target)] *)
Definition find_object (tgt : string) (objs : list SceneObject)
  : option SceneObject :=
  find (fun obj => String.eqb (id obj) tgt) objs.

(** [v === s] for a possibly absent string [v]. *)
Definition str_is (v : option string) (a : string) : bool :=
  match v with
  | Some s => String.eqb s a
  | None => false
  end.

(** [(params.duration as number) || 3000] *)
Definition duration_or_default (d : option float) : float :=
  opt_num_or d 3000.

Definition update_position (p : option Vector3) : ObjectUpdates :=
  mkObjectUpdates None None None (Some p) None None None None None None None.

Definition update_rotation (r : Vector3) : ObjectUpdates :=
  mkObjectUpdates None None None None (Some r) None None None None None None.

Definition update_scale (s : Scale3) : ObjectUpdates :=
  mkObjectUpdates None None None None None (Some s) None None None None None.

Definition update_color (c : option string) : ObjectUpdates :=
  mkObjectUpdates None None None None None None (Some c) None None None None.

Definition update_visible (b : option bool) : ObjectUpdates :=
  mkObjectUpdates None None None None None None None None (Some b) None None.

Definition update_highlighted (b : option bool) : ObjectUpdates :=
  mkObjectUpdates None None None None None None None None None (Some b) None.

Definition update_animating (b : option bool) : ObjectUpdates :=
  mkObjectUpdates None None None None None None None None None None (Some b).

(** The task the highlight time-out runs. *)
Definition highlight_reversal (tgt : string) : SceneContextAction :=
  UPDATE_OBJECT tgt (update_highlighted (Some false)).

(** [state] is the state of the render that created the callback (the
    closure of [useCallback]); [now] is what [Date.now()] returns. *)
Definition applyAction (state : SceneState) (now : N) (a : SceneAction)
  : Outcome Effects :=
  let actionType := action a in
  let params := params a in
  match switch_on case_labels actionType with
  | Some Add_object =>
      let newObject :=
        {| id := opt_str_or (target a) ("obj_" ++ show_N now);
           type := opt_or (p_type params) box;
           name := opt_str_or (p_name params) "New Object";
           position := Some (opt_or (p_position params) (mkVector3 0 0 0));
           rotation := opt_or (p_rotation params) (mkVector3 0 0 0);
           scale := scale_of (opt_or (p_scale params) (mkVector3 1 1 1));
           color := Some (opt_str_or (p_color params) "#888888");
           material := None;
           visible := Some true;
           highlighted := None;
           animating := None |} in
      Done (dispatch (ADD_OBJECT newObject))
  | Some Remove_object =>
      match truthy_target (target a) with
      | Some tgt => Done (dispatch (REMOVE_OBJECT tgt))
      | None => Done no_effects
      end
  | Some Move_object =>
      match truthy_target (target a) with
      | Some tgt =>
          if opt_bool_truthy (p_absolute params)
          then
            Done (dispatch (UPDATE_OBJECT tgt
              (update_position (p_position params))))
          else
            match find_object tgt (objects (sceneData state)) with
            | Some targetObj =>
                (* [targetObj.position.x] and [delta.x]: either object can
                   be [undefined] *)
                match position targetObj, p_delta params with
                | Some pos, Some delta =>
                    Done (dispatch (UPDATE_OBJECT tgt (update_position (Some
                      {| x := x pos + num_or (x delta) 0;
                         y := y pos + num_or (y delta) 0;
                         z := z pos + num_or (z delta) 0 |}))))
                | _, _ => Failed TypeError
                end
            | None => Done no_effects
            end
      | None => Done no_effects
      end
  | Some Rotate_object =>
      match truthy_target (target a) with
      | Some tgt =>
          let axis := p_axis params in
          let degrees := num_of_opt (p_degrees params) in
          match find_object tgt (objects (sceneData state)) with
          | Some targetObj =>
              Done (dispatch (UPDATE_OBJECT tgt (update_rotation
                {| x := if str_is axis "x"
                        then x (rotation targetObj) + degrees
                        else x (rotation targetObj);
                   y := if str_is axis "y"
                        then y (rotation targetObj) + degrees
                        else y (rotation targetObj);
                   z := if str_is axis "z"
                        then z (rotation targetObj) + degrees
                        else z (rotation targetObj) |})))
          | None => Done no_effects
          end
      | None => Done no_effects
      end
  | Some Scale_object =>
      match truthy_target (target a) with
      | Some tgt =>
          let factor := p_factor params in
          Done (dispatch (UPDATE_OBJECT tgt
            (update_scale {| sx := factor; sy := factor; sz := factor |})))
      | None => Done no_effects
      end
  | Some Set_color =>
      match truthy_target (target a) with
      | Some tgt =>
          Done (dispatch (UPDATE_OBJECT tgt (update_color (p_color params))))
      | None => Done no_effects
      end
  | Some Set_visibility =>
      match truthy_target (target a) with
      | Some tgt =>
          Done (dispatch (UPDATE_OBJECT tgt
            (update_visible (p_visible params))))
      | None => Done no_effects
      end
  | Some Highlight_object =>
      match truthy_target (target a) with
      | Some tgt =>
          let duration := duration_or_default (p_duration params) in
          Done {| dispatched :=
                    [UPDATE_OBJECT tgt (update_highlighted (Some true))];
                  started := [{| delay := duration; timeout_id := tgt |}];
                  warned := [] |}
      | None => Done no_effects
      end
  | Some Camera_focus
  | Some Camera_move =>
      Done (dispatch (SET_CAMERA_TRANSITION
        {| active := true;
           targetPosition := p_position params;
           targetLookAt := p_target params |}))
  | Some Camera_zoom =>
      let direction := p_direction params in
      let amount := opt_num_or (p_amount params) 0.5 in
      let zoomMultiplier :=
        if str_is direction "in" then 1 + amount else 1 / (1 + amount) in
      Done (dispatch (SET_CAMERA
        {| cu_position := None;
           cu_target := None;
           cu_zoom := Some zoomMultiplier |}))
  | Some Add_safety_zone =>
      let safetyZone :=
        {| id := opt_str_or (target a) ("safety_zone_" ++ show_N now);
           type := safety_zone;
           name := "Safety Zone";
           position := Some (opt_or (p_position params) (mkVector3 0 0.05 0));
           rotation := mkVector3 0 0 0;
           scale := scale_of (opt_or (p_size params) (mkVector3 5 0.1 5));
           color := Some (opt_str_or (p_color params) "#ff4444");
           material := None;
           visible := Some true;
           highlighted := None;
           animating := None |} in
      Done (dispatch (ADD_OBJECT safetyZone))
  | Some Animate_object =>
      match truthy_target (target a) with
      | Some tgt =>
          Done (dispatch (UPDATE_OBJECT tgt
            (update_animating (p_animate params))))
      | None => Done no_effects
      end
  | Some Reset_scene =>
      Done (dispatch (RESET_SCENE
        (Some {| keepDefaults := p_keep_defaults params |})))
  | Some Set_lighting =>
      Done (dispatch (SET_LIGHTING
        {| lu_ambient_intensity := p_ambient_intensity params;
           lu_directional_intensity := p_directional_intensity params;
           lu_directional_position := p_directional_position params |}))
  | None =>
      Done {| dispatched := [];
              started := [];
              warned := [("Unknown action type: " ++ actionType)%string] |}
  end%float.

(** ** Applying a batch ([applyActions]) *)

(** [actions.forEach(applyAction)]: every call is made by the same callback,
    hence with the same [state]; an exception ends the loop and leaves what
    the earlier calls dispatched. *)
Fixpoint applyActions (state : SceneState) (now : N) (acts : list SceneAction)
  : Effects * option Failure :=
  match acts with
  | [] => (no_effects, None)
  | a :: rest =>
      match applyAction state now a with
      | Done e =>
          let (e', f) := applyActions state now rest in
          (join_effects e e', f)
      | Failed f => (no_effects, Some f)
      end
  end.

(** ** The running application *)

(** React applies the dispatched actions to its current state, in the order
    of the calls of [dispatch]. *)
Definition reduce_all (s : SceneState) (acts : list SceneContextAction)
  : SceneState :=
  fold_left sceneReducer acts s.

(** A pending time-out: the time at which it is due and the object id its
    callback dispatches the reversal for. *)
Record Timer : Type := mkTimer {
  due : N;
  timer_id : string
}.

(** The provider at one moment: the state of its latest render, the clock
    and the time-outs not fired yet, in the order they were started. *)
Record World : Type := mkWorld {
  current : SceneState;
  clock : N;
  pending : list Timer
}.

Definition initialWorld : World :=
  {| current := initialState; clock := 0; pending := [] |}.

Definition start_timer (now : N) (t : Timeout) : Timer :=
  {| due := now + timeout_delay (delay t); timer_id := timeout_id t |}.

(** An event handler of the latest render applies a batch: the callbacks
    read that render's state, the dispatched actions are reduced in order
    and the time-outs are started.  The batch is synchronous: it runs at
    one reading of the clock. *)
Definition handle (w : World) (acts : list SceneAction)
  : World * option Failure :=
  let (e, f) := applyActions (current w) (clock w) acts in
  ({| current := reduce_all (current w) (dispatched e);
      clock := clock w;
      pending := pending w ++ map (start_timer (clock w)) (started e) |},
   f).

(** Time-outs fire by due time, and in the order they were started when due
    at the same time. *)
Fixpoint insert_by_due (t : Timer) (q : list Timer) : list Timer :=
  match q with
  | [] => [t]
  | u :: q' =>
      if N.leb (due t) (due u) then t :: q else u :: insert_by_due t q'
  end.

Definition firing_order (ts : list Timer) : list Timer :=
  fold_right insert_by_due [] ts.

Definition is_due (t : N) (tm : Timer) : bool := N.leb (due tm) t.

(** The clock reaches [t]: the time-outs due by then have fired, each one
    dispatching its reversal. *)
Definition elapse (t : N) (w : World) : World :=
  let ready := firing_order (filter (is_due t) (pending w)) in
  {| current :=
       reduce_all (current w)
         (map (fun tm => highlight_reversal (timer_id tm)) ready);
     clock := N.max (clock w) t;
     pending := filter (fun tm => negb (is_due t tm)) (pending w) |}.

(** ** Reading a state *)

Definition scene_objects (s : SceneState) : list SceneObject :=
  objects (sceneData s).

Definition object_ids (s : SceneState) : list string :=
  map id (scene_objects s).

Definition no_params : Params :=
  mkParams None None None None None None None None None None None
           None None None None None None None None None None None.


(** ** Notions the claims use *)

Definition is_some {A : Type} (v : option A) : bool :=
  match v with
  | Some _ => true
  | None => false
  end.

(** In the words of the specification: add [degrees] to the rotation
    component named by [axis]; the other axes are unchanged. *)
Definition spec_rotate (axis : string) (degrees : float) (r : Vector3)
  : Vector3 :=
  if String.eqb axis "x" then mkVector3 (x r + degrees) (y r) (z r)
  else if String.eqb axis "y" then mkVector3 (x r) (y r + degrees) (z r)
  else if String.eqb axis "z" then mkVector3 (x r) (y r) (z r + degrees)
  else r.

(** Every object with id [tgt] has its highlight off. *)
Definition highlight_off (tgt : string) (s : SceneState) : Prop :=
  forall obj, In obj (scene_objects s) -> id obj = tgt ->
              highlighted obj = Some false.

(** ** The inspector panel ([components/panels/InspectorPanel.tsx]) *)

(** An object type inside a template literal. *)
Definition type_name (t : ObjectType) : string :=
  match t with
  | conveyor => "conveyor"
  | robot_arm => "robot_arm"
  | box => "box"
  | safety_zone => "safety_zone"
  | cylinder => "cylinder"
  | sphere => "sphere"
  | custom => "custom"
  end.

(** [selectedObject]: the object found for a truthy [selectedObjectId];
    [null] or [undefined], both falsy, otherwise. *)
Definition selectedObject (state : SceneState) : option SceneObject :=
  match truthy_target (selectedObjectId state) with
  | Some sel => find_object sel (objects (sceneData state))
  | None => None
  end.

(** The handlers of the panel, as the list of reducer actions they
    dispatch; [state] is the state of the render they belong to. *)
Definition updateObject (state : SceneState) (updates : ObjectUpdates)
  : list SceneContextAction :=
  match truthy_target (selectedObjectId state) with
  | Some sel => [UPDATE_OBJECT sel updates]
  | None => []
  end.

Definition deleteObject (state : SceneState) : list SceneContextAction :=
  match truthy_target (selectedObjectId state) with
  | Some sel => [REMOVE_OBJECT sel]
  | None => []
  end.

(** [duplicateObject] reads [selectedObject.position.x]: it throws, before
    it dispatches anything, when the position is [undefined]. *)
Definition duplicateObject (state : SceneState) (now : N)
  : Outcome (list SceneContextAction) :=
  match selectedObject state with
  | Some sel =>
      match position sel with
      | Some pos =>
          let newObject :=
            {| id := type_name (type sel) ++ "_" ++ show_N now;
               type := type sel;
               name := name sel ++ " (Copy)";
               position :=
                 Some {| x := (x pos + 2)%float; y := y pos; z := z pos |};
               rotation := rotation sel;
               scale := scale sel;
               color := color sel;
               material := material sel;
               visible := visible sel;
               highlighted := highlighted sel;
               animating := animating sel |} in
          Done [ADD_OBJECT newObject]
      | None => Failed TypeError
      end
  | None => Done []
  end.

(** The click handler of the visibility switch, which is rendered only when
    there is a [selectedObject]:
    [updateObject({ visible: !selectedObject.visible })]. *)
Definition toggleVisible (state : SceneState) : list SceneContextAction :=
  match selectedObject state with
  | Some sel =>
      updateObject state
        (update_visible (Some (negb (opt_bool_truthy (visible sel)))))
  | None => []
  end.

(** The world after an event handler that only dispatches. *)
Definition dispatching (w : World) (acts : list SceneContextAction) : World :=
  {| current := reduce_all (current w) acts;
     clock := clock w;
     pending := pending w |}.

(** ** The prompt panel ([components/panels/PromptPanel.tsx]) *)

(** The local state of the panel.  The text of the message set in the
    [catch] block depends on the build and on the exception: it is not
    modelled, only that it is set. *)
Inductive PanelError : Type :=
  | ResponseMessage (text : string)
  | CaughtMessage.

Record PanelState : Type := mkPanelState {
  panel_prompt : string;
  isSubmitting : bool;
  panel_error : option PanelError
}.

(** How the awaited [apiService.parsePrompt] ends. *)
Inductive ParseResult : Type :=
  | Resolved (parsed : ActionResponse)
  | Rejected.

Section PromptPanel.

(** [String.prototype.trim] *)
Variable trim : string -> string.

(** [handleSubmit], run by the latest render on the world [w]; the request
    ends at time [arrival], and while it is pending nothing happens but
    time-outs. *)
Definition handleSubmit
  (p : PanelState) (w : World) (result : ParseResult) (arrival : N)
  : PanelState * World :=
  if negb (str_truthy (trim (panel_prompt p))) || isSubmitting p
  then (p, w)
  else
    let w1 := elapse arrival (dispatching w [SET_LOADING true]) in
    match result with
    | Resolved parsed =>
        let historyEntry :=
          {| h_id := "prompt_" ++ show_N (clock w1);
             prompt := trim (panel_prompt p);
             response := parsed;
             timestamp := clock w1 |} in
        let w2 := dispatching w1 [ADD_PROMPT_HISTORY historyEntry] in
        if success parsed && Nat.ltb 0 (List.length (actions parsed))
        then
          let (e, f) := applyActions (current w) (clock w2) (actions parsed) in
          let w3 :=
            {| current := reduce_all (current w2) (dispatched e);
               clock := clock w2;
               pending :=
                 pending w2 ++ map (start_timer (clock w2)) (started e) |} in
          match f with
          | None =>
              ({| panel_prompt := "";
                  isSubmitting := false;
                  panel_error := None |},
               dispatching w3 [SET_LOADING false])
          | Some _ =>
              ({| panel_prompt := panel_prompt p;
                  isSubmitting := false;
                  panel_error := Some CaughtMessage |},
               dispatching w3 [SET_LOADING false])
          end
        else if negb (success parsed)
        then
          ({| panel_prompt := "";
              isSubmitting := false;
              panel_error := Some (ResponseMessage (message parsed)) |},
           dispatching w2 [SET_LOADING false])
        else
          ({| panel_prompt := "";
              isSubmitting := false;
              panel_error := None |},
           dispatching w2 [SET_LOADING false])
    | Rejected =>
        ({| panel_prompt := panel_prompt p;
            isSubmitting := false;
            panel_error := Some CaughtMessage |},
         dispatching w1 [SET_LOADING false])
    end.

End PromptPanel.

(** ** The API service and the authentication context
       ([services/api.ts], [context/AuthContext.tsx]) *)

(** The [token] field of the service and the [auth_token] entry of
    [localStorage]. *)
Record ApiService : Type := mkApiService {
  token : option string;
  stored_token : option string
}.

(** The constructor, given what [localStorage] holds. *)
Definition newApiService (storage : option string) : ApiService :=
  {| token := truthy_target storage; stored_token := storage |}.

Definition setToken (api : ApiService) (t : option string) : ApiService :=
  {| token := t; stored_token := truthy_target t |}.

Definition getToken (api : ApiService) : option string := token api.

Definition api_logout (api : ApiService) : ApiService := setToken api None.

(** The header the request interceptor adds. *)
Definition authorization (api : ApiService) : option string :=
  match truthy_target (token api) with
  | Some t => Some ("Bearer " ++ t)%string
  | None => None
  end.

(** The endpoint [parsePrompt] posts to. *)
Definition parsePrompt_endpoint (api : ApiService) : string :=
  match truthy_target (token api) with
  | Some _ => "/prompt"
  | None => "/prompt/demo"
  end.

Record User : Type := mkUser {
  user_id : N;
  email : string;
  username : string;
  is_active : bool;
  created_at : string
}.

Record AuthToken : Type := mkAuthToken {
  access_token : string;
  token_type : string;
  user : User
}.

(** The service together with the [user] state of [AuthProvider]. *)
Record Session : Type := mkSession {
  service : ApiService;
  auth_user : option User
}.

(** The page loads: the service is constructed and the provider mounts. *)
Definition load_page (storage : option string) : Session :=
  {| service := newApiService storage; auth_user := None |}.

(** [login], when the request resolves to [result]. *)
Definition login_resolved (s : Session) (result : AuthToken) : Session :=
  {| service := setToken (service s) (Some (access_token result));
     auth_user := Some (user result) |}.

Definition logout (s : Session) : Session :=
  {| service := api_logout (service s); auth_user := None |}.

Definition isAuthenticated (s : Session) : bool := is_some (auth_user s).

(** The page is loaded again with the storage the session left. *)
Definition reload (s : Session) : Session :=
  load_page (stored_token (service s)).

(** What can happen to a session, and a run of such events. *)
Inductive SessionEvent : Type :=
  | LoginResolved (result : AuthToken)
  | Logout
  | Reload.

Definition session_step (s : Session) (ev : SessionEvent) : Session :=
  match ev with
  | LoginResolved result => login_resolved s result
  | Logout => logout s
  | Reload => reload s
  end.

Definition run_session (s : Session) (evs : list SessionEvent) : Session :=
  fold_left session_step evs s.

(** ** The rendered objects ([hooks/useThreeScene.ts]) *)

Section ThreeScene.

(** A [THREE.Object3D].  Building the geometry of a scene object, and
    writing the fields of a scene object into an existing one (the block
    under "Update existing object"), are operations on three.js objects:
    they are taken as they come. *)
Variable Object3D : Type.
Variable createObjectGeometry : SceneObject -> Object3D.
Variable update_existing : Object3D -> SceneObject -> Object3D.

(** [refs.current.objects], a [Map<string, THREE.Object3D>]: its entries in
    insertion order. *)
Definition ObjectMap : Type := list (string * Object3D).

Fixpoint map_get (k : string) (m : ObjectMap) : option Object3D :=
  match m with
  | [] => None
  | (k', v) :: m' => if String.eqb k' k then Some v else map_get k m'
  end.

(** [Map.set]: an existing key keeps its place. *)
Fixpoint map_set (k : string) (v : Object3D) (m : ObjectMap) : ObjectMap :=
  match m with
  | [] => [(k, v)]
  | (k', v') :: m' =>
      if String.eqb k' k then (k, v) :: m' else (k', v') :: map_set k v m'
  end.

Definition map_keys (m : ObjectMap) : list string := map fst m.

(** The body of [sceneData.objects.forEach] in the effect that follows
    [sceneData.objects]: update the object found under the id, or create
    one and put it under the id.  Both ways read [sceneObj.position.x]
    before the map is touched, the first in the arguments of
    [existingObj.position.set], the second inside [createObjectGeometry]:
    they throw when the position is [undefined]. *)
Definition sync_object (m : ObjectMap) (sceneObj : SceneObject)
  : Outcome ObjectMap :=
  match map_get (id sceneObj) m, position sceneObj with
  | _, None => Failed TypeError
  | Some existingObj, Some _ =>
      Done (map_set (id sceneObj) (update_existing existingObj sceneObj) m)
  | None, Some _ =>
      Done (map_set (id sceneObj) (createObjectGeometry sceneObj) m)
  end.

(** [sceneData.objects.forEach]: an exception ends the loop and leaves the
    map as the objects before have made it. *)
Fixpoint sync_each (m : ObjectMap) (sceneObjects : list SceneObject)
  : ObjectMap * option Failure :=
  match sceneObjects with
  | [] => (m, None)
  | sceneObj :: rest =>
      match sync_object m sceneObj with
      | Done m' => sync_each m' rest
      | Failed f => (m, Some f)
      end
  end.

(** The effect: the entries whose id no scene object has are deleted, then
    every scene object is synchronised, in order. *)
Definition sync_objects (m : ObjectMap) (sceneObjects : list SceneObject)
  : ObjectMap * option Failure :=
  let currentIds := map id sceneObjects in
  let kept :=
    filter (fun entry => existsb (String.eqb (fst entry)) currentIds) m in
  sync_each kept sceneObjects.

End ThreeScene.

(** ** Notions the further properties use *)

(** The reducer actions [applyAction] can dispatch: the ones its branches
    build, where an update never carries an [id], a camera update carries
    neither a position nor a target and a camera transition is always an
    active one. *)
Definition scene_dispatch (act : SceneContextAction) : bool :=
  match act with
  | ADD_OBJECT _ | REMOVE_OBJECT _ | SET_LIGHTING _ | RESET_SCENE _ => true
  | SET_CAMERA u =>
      negb (is_some (cu_position u)) && negb (is_some (cu_target u))
  | UPDATE_OBJECT _ u => negb (is_some (u_id u))
  | SET_CAMERA_TRANSITION p => active p
  | _ => false
  end.

(** The kinds whose branch starts with [if (target)]. *)
Definition target_kinds : list string :=
  [ "remove_object"; "move_object"; "rotate_object"; "scale_object";
    "set_color"; "set_visibility"; "highlight_object"; "animate_object" ].

(** The branches that read [state.sceneData.objects]: the relative move and
    the rotation. *)
Definition reads_render_state (a : SceneAction) : bool :=
  match switch_on case_labels (action a) with
  | Some Move_object =>
      is_some (truthy_target (target a)) &&
      negb (opt_bool_truthy (p_absolute (params a)))
  | Some Rotate_object => is_some (truthy_target (target a))
  | _ => false
  end.

(** The selection, when there is one, is the id of an object of the scene. *)
Definition selection_valid (s : SceneState) : Prop :=
  match selectedObjectId s with
  | Some sel => In sel (object_ids s)
  | None => True
  end.

(** A reducer action that can only touch the objects with id [tgt]. *)
Definition touches_only (tgt : string) (act : SceneContextAction) : bool :=
  match act with
  | REMOVE_OBJECT p => String.eqb p tgt
  | UPDATE_OBJECT p u => String.eqb p tgt && negb (is_some (u_id u))
  | _ => false
  end.

(** The objects of a state whose id is not [tgt], in order. *)
Definition other_objects (tgt : string) (s : SceneState) : list SceneObject :=
  filter (fun obj => negb (String.eqb (id obj) tgt)) (scene_objects s).

(** An object with its highlight flag left out. *)
Definition forget_highlight (obj : SceneObject) : SceneObject :=
  {| id := id obj;
     type := type obj;
     name := name obj;
     position := position obj;
     rotation := rotation obj;
     scale := scale obj;
     color := color obj;
     material := material obj;
     visible := visible obj;
     highlighted := None;
     animating := animating obj |}.


(** A call starts a time-out only for a highlight, for its target and with
    its duration. *)
Definition started_by (a : SceneAction) (t : Timeout) : Prop :=
  action a = "highlight_object" /\
  target a = Some (timeout_id t) /\
  delay t = duration_or_default (p_duration (params a)).

(** * Properties *)

(** ** The switch *)

Lemma switch_on_unknown (labels : list (string * ActionCase)) (s : string) :
  ~ In s (map fst labels) -> switch_on labels s = None.
Proof.
  induction labels as [|[label c] rest IH]; simpl; intros Hnot.
  - reflexivity.
  - destruct (String.eqb_spec s label) as [->|_].
    + exfalso. apply Hnot. now left.
    + apply IH. intros Hin. apply Hnot. now right.
Qed.

Lemma switch_on_known (labels : list (string * ActionCase)) (s : string) :
  In s (map fst labels) -> exists c, switch_on labels s = Some c.
Proof.
  induction labels as [|[label c] rest IH]; simpl; intros Hin.
  - contradiction.
  - destruct (String.eqb_spec s label) as [_|Hne].
    + now exists c.
    + destruct Hin as [Heq|Hin]; [congruence | now apply IH].
Qed.

Lemma truthy_target_some (tgt : string) :
  str_truthy tgt = true -> truthy_target (Some tgt) = Some tgt.
Proof. intros H. unfold truthy_target. now rewrite H. Qed.

(** ** Updating objects by id *)

Section UpdateById.

Variable pid : string.
Variable u : ObjectUpdates.
Hypothesis keeps_id : u_id u = None.

Let upd := updated pid u.

Lemma upd_id (obj : SceneObject) : id (upd obj) = id obj.
Proof.
  unfold upd, updated. destruct (String.eqb (id obj) pid); [|reflexivity].
  simpl. now rewrite keeps_id.
Qed.

Lemma update_keeps_ids (s : SceneState) :
  object_ids (sceneReducer s (UPDATE_OBJECT pid u)) = object_ids s.
Proof.
  unfold object_ids, scene_objects. simpl.
  rewrite map_map. apply map_ext. exact upd_id.
Qed.

Lemma find_object_update (tgt : string) (objs : list SceneObject) :
  find_object tgt (map upd objs) = option_map upd (find_object tgt objs).
Proof.
  unfold find_object.
  induction objs as [|obj objs IH]; simpl; [reflexivity|].
  rewrite upd_id. destruct (String.eqb (id obj) tgt); [reflexivity|exact IH].
Qed.

Lemma update_absent (s : SceneState) :
  ~ In pid (object_ids s) -> sceneReducer s (UPDATE_OBJECT pid u) = s.
Proof.
  destruct s as [[objs cam lig env] sel hist load trans].
  unfold object_ids, scene_objects. simpl. intros Hnot.
  unfold with_sceneData, with_objects. simpl. do 2 f_equal.
  induction objs as [|obj objs IH]; simpl in *; [reflexivity|].
  rewrite IH by tauto. f_equal. unfold updated.
  destruct (String.eqb_spec (id obj) pid) as [Heq|_]; [|reflexivity].
  exfalso. apply Hnot. now left.
Qed.

End UpdateById.

Lemma find_object_id (tgt : string) (objs : list SceneObject) (obj : SceneObject) :
  find_object tgt objs = Some obj -> id obj = tgt.
Proof.
  unfold find_object. intros H. apply find_some in H.
  destruct H as [_ H]. now apply String.eqb_eq.
Qed.

Lemma find_object_in (tgt : string) (objs : list SceneObject) (obj : SceneObject) :
  find_object tgt objs = Some obj -> In obj objs.
Proof. unfold find_object. intros H. now apply find_some in H. Qed.

(** ** Removing an object *)

Lemma remove_drops_id (s : SceneState) (tgt : string) :
  ~ In tgt (object_ids (sceneReducer s (REMOVE_OBJECT tgt))).
Proof.
  unfold object_ids, scene_objects. simpl. intros Hin.
  apply in_map_iff in Hin. destruct Hin as [obj [Hid Hin]].
  apply filter_In in Hin. destruct Hin as [_ Hneq].
  rewrite Hid, String.eqb_refl in Hneq. discriminate.
Qed.

(** ** Claims about resetting *)

(** C6: whatever the state before, [reset_scene] with [keep_defaults] true
    leaves exactly the two default objects (the conveyor and the robot arm,
    with their default fields); with [keep_defaults] false it leaves no
    object and the default camera, lighting and environment; the selection
    is cleared in both cases. *)
Theorem C6_reset_scene_result
  (w : World) (tgt : option string) (ps : Params) (b : bool) :
  p_keep_defaults ps = Some b ->
  let r := handle w [mkSceneAction "reset_scene" tgt ps] in
  snd r = None /\
  selectedObjectId (current (fst r)) = None /\
  camera (sceneData (current (fst r))) = defaultCamera /\
  lighting (sceneData (current (fst r))) = defaultLighting /\
  environment (sceneData (current (fst r))) = defaultEnvironment /\
  scene_objects (current (fst r)) =
    (if b then [conveyor_1; robot_arm_1] else []).
Proof.
  intros Hkeep. unfold handle, scene_objects. simpl. rewrite Hkeep.
  destruct b; simpl; repeat split; reflexivity.
Qed.

Lemma C6_reset_scene_result_witness :
  let w := fst (handle initialWorld
                  [mkSceneAction "remove_object" (Some "robot_arm_1") no_params]) in
  let ps := mkParams None None None None None None None None None None None
              None None None None None None None (Some true)
              None None None in
  scene_objects (current w) = [conveyor_1] /\
  scene_objects
    (current (fst (handle w [mkSceneAction "reset_scene" None ps]))) =
    [conveyor_1; robot_arm_1].
Proof.
  split; [reflexivity|].
  apply (C6_reset_scene_result
           (fst (handle initialWorld
              [mkSceneAction "remove_object" (Some "robot_arm_1") no_params]))
           None _ true).
  reflexivity.
Defined.

(** C5 (as the code has it): [reset_scene] does not touch the camera
    transition; the record in the resulting state, [active] included, is
    the one of the state before. *)
Theorem C5_reset_keeps_camera_transition
  (w : World) (tgt : option string) (ps : Params) :
  cameraTransition
    (current (fst (handle w [mkSceneAction "reset_scene" tgt ps]))) =
  cameraTransition (current w).
Proof. reflexivity. Qed.

(** C5 fails as stated: a camera transition requested before the reset is
    still active after it. *)
Lemma C5_reset_leaves_transition_active :
  let focus :=
    mkSceneAction "camera_focus" None
      (mkParams None None (Some (mkVector3 5 5 5)) None None None None None
         None None None None None (Some (mkVector3 0 0 0)) None None None
         None None None None None) in
  let reset :=
    mkSceneAction "reset_scene" None
      (mkParams None None None None None None None None None None None
         None None None None None None None (Some true) None None None) in
  let w1 := fst (handle initialWorld [focus]) in
  let w2 := fst (handle w1 [reset]) in
  active (cameraTransition (current w1)) = true /\
  active (cameraTransition (current w2)) = true /\
  targetPosition (cameraTransition (current w2)) = Some (mkVector3 5 5 5).
Proof. repeat split; reflexivity. Qed.

(** ** Claims about unknown kinds and failures *)

Lemma handle_nothing (w : World) (a : SceneAction) (warnings : list string) :
  applyAction (current w) (clock w) a =
    Done {| dispatched := []; started := []; warned := warnings |} ->
  handle w [a] = (w, None).
Proof.
  intros H. unfold handle, applyActions. rewrite H. simpl.
  rewrite app_nil_r. now destruct w.
Qed.

Lemma switch_on_sound
  (labels : list (string * ActionCase)) (s : string) (c : ActionCase) :
  switch_on labels s = Some c -> In (s, c) labels.
Proof.
  induction labels as [|[label c0] rest IH]; simpl; [discriminate|].
  destruct (String.eqb_spec s label) as [->|_].
  - intros H. inversion H. now left.
  - intros H. right. now apply IH.
Qed.







(** ** Claims about creating objects *)

Lemma NoDup_snoc {A : Type} (l : list A) (a : A) :
  NoDup (l ++ [a]) <-> NoDup l /\ ~ In a l.
Proof.
  induction l as [|b l IH]; simpl.
  - split; [intros _; split; [constructor | tauto] | intros _].
    constructor; [tauto | constructor].
  - rewrite !NoDup_cons_iff, IH, in_app_iff. simpl.
    split; intros H; intuition congruence.
Qed.

Lemma add_object_appends (w : World) (tgt : option string) (ps : Params) :
  exists obj,
    scene_objects
      (current (fst (handle w [mkSceneAction "add_object" tgt ps]))) =
      scene_objects (current w) ++ [obj] /\
    id obj = opt_str_or tgt ("obj_" ++ show_N (clock w)) /\
    visible obj = Some true /\ highlighted obj = None /\ animating obj = None.
Proof. eexists. repeat split. Qed.

Lemma add_safety_zone_appends (w : World) (tgt : option string) (ps : Params) :
  exists obj,
    scene_objects
      (current (fst (handle w [mkSceneAction "add_safety_zone" tgt ps]))) =
      scene_objects (current w) ++ [obj] /\
    id obj = opt_str_or tgt ("safety_zone_" ++ show_N (clock w)) /\
    visible obj = Some true /\ highlighted obj = None /\ animating obj = None.
Proof. eexists. repeat split. Qed.

(** C10: the object that [add_object] or [add_safety_zone] inserts is
    visible, and neither highlighted nor animating, whatever the parameters
    of the action. *)
Theorem C10_created_object_starts_visible
  (w : World) (tgt : option string) (ps : Params) :
  (exists obj,
     scene_objects
       (current (fst (handle w [mkSceneAction "add_object" tgt ps]))) =
       scene_objects (current w) ++ [obj] /\
     visible obj = Some true /\ highlighted obj = None /\ animating obj = None) /\
  (exists obj,
     scene_objects
       (current (fst (handle w [mkSceneAction "add_safety_zone" tgt ps]))) =
       scene_objects (current w) ++ [obj] /\
     visible obj = Some true /\ highlighted obj = None /\ animating obj = None).
Proof.
  split.
  - destruct (add_object_appends w tgt ps) as [obj [Hobjs [_ Hflags]]].
    now exists obj.
  - destruct (add_safety_zone_appends w tgt ps) as [obj [Hobjs [_ Hflags]]].
    now exists obj.
Qed.

(** C3 (as the code has it): [add_object] and [add_safety_zone] never
    reject; the new object is appended also when its id is already there.
    The ids of the resulting state are pairwise distinct exactly when those
    before were and the new id was not among them. *)
Theorem C3_creation_appends_and_uniqueness
  (w : World) (tgt : option string) (ps : Params) :
  let ids := object_ids (current w) in
  let obj_id := opt_str_or tgt ("obj_" ++ show_N (clock w)) in
  let zone_id := opt_str_or tgt ("safety_zone_" ++ show_N (clock w)) in
  let ids_obj :=
    object_ids (current (fst (handle w [mkSceneAction "add_object" tgt ps]))) in
  let ids_zone :=
    object_ids
      (current (fst (handle w [mkSceneAction "add_safety_zone" tgt ps]))) in
  ids_obj = ids ++ [obj_id] /\
  (NoDup ids_obj <-> NoDup ids /\ ~ In obj_id ids) /\
  ids_zone = ids ++ [zone_id] /\
  (NoDup ids_zone <-> NoDup ids /\ ~ In zone_id ids).
Proof.
  intros ids obj_id zone_id ids_obj ids_zone.
  assert (Hobj : ids_obj = ids ++ [obj_id]).
  { subst ids_obj ids obj_id. unfold object_ids.
    destruct (add_object_appends w tgt ps) as [obj [-> [<- _]]].
    now rewrite map_app. }
  assert (Hzone : ids_zone = ids ++ [zone_id]).
  { subst ids_zone ids zone_id. unfold object_ids.
    destruct (add_safety_zone_appends w tgt ps) as [obj [-> [<- _]]].
    now rewrite map_app. }
  rewrite Hobj, Hzone.
  split; [reflexivity|]. split; [apply NoDup_snoc|].
  split; [reflexivity|]. apply NoDup_snoc.
Qed.

(** C3 fails as stated: the default scene has an object with id
    [conveyor_1]; an [add_object] carrying that id is not rejected, and two
    objects of the resulting state share the id. *)
Lemma C3_duplicate_id_is_added :
  let a := mkSceneAction "add_object" (Some "conveyor_1") no_params in
  let r := handle initialWorld [a] in
  In "conveyor_1" (object_ids (current initialWorld)) /\
  NoDup (object_ids (current initialWorld)) /\
  snd r = None /\
  object_ids (current (fst r)) = ["conveyor_1"; "robot_arm_1"; "conveyor_1"] /\
  current (fst r) <> current initialWorld /\
  ~ NoDup (object_ids (current (fst r))).
Proof.
  simpl. repeat split.
  - now left.
  - repeat constructor; simpl; intuition discriminate.
  - discriminate.
  - intros H. inversion H as [|? ? Hnotin _]. apply Hnotin. simpl. tauto.
Qed.

(** ** Claims about the camera zoom *)

(** Whatever the zoom was, [camera_zoom] leaves the factor as the zoom. *)
Lemma camera_zoom_sets_factor (w : World) (tgt : option string) (ps : Params) :
  zoom (camera (sceneData
    (current (fst (handle w [mkSceneAction "camera_zoom" tgt ps]))))) =
  (let amount := opt_num_or (p_amount ps) 0.5 in
   if str_is (p_direction ps) "in" then 1 + amount else 1 / (1 + amount))%float.
Proof. reflexivity. Qed.

(** Two numbers that [eqb] tells apart are different, when the first is
    not [NaN]. *)
Lemma float_neq (a b : float) :
  PrimFloat.eqb a a = true -> PrimFloat.eqb a b = false -> a <> b.
Proof. intros Haa Hab Heq. subst b. congruence. Qed.

(** C2, on the code: a second zoom in by [0.5] leaves the zoom at [1.5], the
    factor, where the product of the current zoom and the factor is
    [2.25]. *)
Theorem C2_zoom_in_twice :
  let zoom_in :=
    mkSceneAction "camera_zoom" None
      (mkParams None None None None None None None None None None None
         None None None (Some "in") (Some 0.5%float) None None None
         None None None) in
  let w1 := fst (handle initialWorld [zoom_in]) in
  let w2 := fst (handle w1 [zoom_in]) in
  let zoom_of := fun w : World => zoom (camera (sceneData (current w))) in
  zoom_of initialWorld = 1%float /\
  zoom_of w1 = 1.5%float /\
  zoom_of w2 = 1.5%float /\
  (zoom_of w1 * (1 + 0.5) = 2.25)%float /\
  zoom_of w2 <> (zoom_of w1 * (1 + 0.5))%float.
Proof.
  repeat split; try reflexivity.
  apply float_neq; reflexivity.
Qed.

(** ** Claims about batches *)

Lemma applyActions_cons_done
  (s : SceneState) (now : N) (a : SceneAction) (rest : list SceneAction)
  (e : Effects) :
  applyAction s now a = Done e ->
  applyActions s now (a :: rest) =
    (join_effects e (fst (applyActions s now rest)),
     snd (applyActions s now rest)).
Proof.
  intros H. simpl. rewrite H. now destruct (applyActions s now rest).
Qed.

(** What one call dispatches, kind by kind. *)
Lemma applyAction_move_relative
  (s : SceneState) (now : N) (tgt : string) (ps : Params) (delta pos : Vector3)
  (obj : SceneObject) :
  str_truthy tgt = true ->
  p_absolute ps = Some false ->
  p_delta ps = Some delta ->
  find_object tgt (scene_objects s) = Some obj ->
  position obj = Some pos ->
  applyAction s now (mkSceneAction "move_object" (Some tgt) ps) =
  Done (dispatch (UPDATE_OBJECT tgt (update_position (Some
    {| x := x pos + num_or (x delta) 0;
       y := y pos + num_or (y delta) 0;
       z := z pos + num_or (z delta) 0 |}%float)))).
Proof.
  intros Htgt Habs Hdelta Hfind Hpos. unfold applyAction, scene_objects in *.
  cbn [action target params switch_on case_labels String.eqb Ascii.eqb
       Bool.eqb].
  now rewrite (truthy_target_some tgt Htgt), Habs, Hfind, Hpos, Hdelta.
Qed.

Lemma handle_batch (w : World) (acts : list SceneAction) :
  handle w acts =
  ({| current :=
        reduce_all (current w)
          (dispatched (fst (applyActions (current w) (clock w) acts)));
      clock := clock w;
      pending :=
        pending w ++
        map (start_timer (clock w))
          (started (fst (applyActions (current w) (clock w) acts))) |},
   snd (applyActions (current w) (clock w) acts)).
Proof.
  unfold handle. now destruct (applyActions (current w) (clock w) acts).
Qed.

Lemma handle_single (w : World) (a : SceneAction) (e : Effects) :
  applyAction (current w) (clock w) a = Done e ->
  handle w [a] =
  ({| current := reduce_all (current w) (dispatched e);
      clock := clock w;
      pending := pending w ++ map (start_timer (clock w)) (started e) |},
   None).
Proof.
  intros H. rewrite handle_batch. unfold applyActions. rewrite H. simpl.
  now rewrite !app_nil_r.
Qed.

Lemma find_object_updated
  (tgt : string) (u : ObjectUpdates) (objs : list SceneObject)
  (obj : SceneObject) :
  u_id u = None ->
  find_object tgt objs = Some obj ->
  find_object tgt (map (updated tgt u) objs) = Some (merge_object obj u).
Proof.
  intros Hu Hfind. rewrite (find_object_update tgt u Hu), Hfind. simpl.
  unfold updated.
  now rewrite (find_object_id _ _ _ Hfind), String.eqb_refl.
Qed.

(** Every relative move of a batch starts from the position the object has
    in the state of the render: two moves by [delta] leave the object where
    one does. *)
Lemma batch_of_two_relative_moves
  (w : World) (tgt : string) (ps : Params) (delta pos : Vector3)
  (obj : SceneObject) :
  str_truthy tgt = true ->
  p_absolute ps = Some false ->
  p_delta ps = Some delta ->
  find_object tgt (scene_objects (current w)) = Some obj ->
  position obj = Some pos ->
  let move := mkSceneAction "move_object" (Some tgt) ps in
  option_map position
    (find_object tgt (scene_objects (current (fst (handle w [move; move]))))) =
  Some (Some {| x := x pos + num_or (x delta) 0;
                y := y pos + num_or (y delta) 0;
                z := z pos + num_or (z delta) 0 |}%float).
Proof.
  intros Htgt Habs Hdelta Hfind Hpos move. subst move.
  pose proof (applyAction_move_relative (current w) (clock w) tgt ps delta pos
                obj Htgt Habs Hdelta Hfind Hpos) as Hcall.
  rewrite handle_batch.
  rewrite (applyActions_cons_done _ _ _ _ _ Hcall).
  rewrite (applyActions_cons_done _ _ _ _ _ Hcall).
  unfold scene_objects in *. simpl.
  erewrite find_object_updated; [reflexivity|reflexivity|].
  erewrite find_object_updated; [reflexivity|reflexivity|exact Hfind].
Qed.

(** C1, on the code: two relative moves by [{x: 2, y: 0, z: 0}] applied as
    one batch to the conveyor of the default scene move it from [x = 0] to
    [x = 2]; applied as two batches they move it to [x = 4]. *)
Theorem C1_batch_moves_read_render_state :
  let move :=
    mkSceneAction "move_object" (Some "conveyor_1")
      (mkParams None None None None None None
         (Some false) (Some (mkVector3 2 0 0)) None None None
         None None None None None None None None None None None) in
  let position_in := fun w : World =>
    option_map position (find_object "conveyor_1" (scene_objects (current w))) in
  position_in initialWorld = Some (Some (mkVector3 0 0.5 0)) /\
  handle initialWorld [move; move] =
    (fst (handle initialWorld [move]), None) /\
  position_in (fst (handle initialWorld [move; move])) =
    Some (Some (mkVector3 2 0.5 0)) /\
  position_in (fst (handle (fst (handle initialWorld [move])) [move])) =
    Some (Some (mkVector3 4 0.5 0)).
Proof. repeat split; reflexivity. Qed.

(** ** Claims about rotation *)

Lemma applyAction_rotate
  (s : SceneState) (now : N) (tgt axis : string) (degrees : float)
  (ps : Params) (obj : SceneObject) :
  str_truthy tgt = true ->
  p_axis ps = Some axis ->
  p_degrees ps = Some degrees ->
  find_object tgt (scene_objects s) = Some obj ->
  applyAction s now (mkSceneAction "rotate_object" (Some tgt) ps) =
  Done (dispatch (UPDATE_OBJECT tgt
    (update_rotation (spec_rotate axis degrees (rotation obj))))).
Proof.
  intros Htgt Haxis Hdeg Hfind. unfold applyAction, scene_objects in *.
  cbn [action target params switch_on case_labels String.eqb Ascii.eqb
       Bool.eqb].
  rewrite (truthy_target_some tgt Htgt), Haxis, Hdeg, Hfind.
  do 3 f_equal. unfold spec_rotate, str_is, num_of_opt.
  destruct (String.eqb_spec axis "x") as [->|_]; [reflexivity|].
  destruct (String.eqb_spec axis "y") as [->|_]; [reflexivity|].
  destruct (String.eqb_spec axis "z") as [->|_]; [reflexivity|].
  now destruct (rotation obj).
Qed.

Lemma handle_rotate
  (w : World) (tgt axis : string) (degrees : float) (ps : Params)
  (obj : SceneObject) :
  str_truthy tgt = true ->
  p_axis ps = Some axis ->
  p_degrees ps = Some degrees ->
  find_object tgt (scene_objects (current w)) = Some obj ->
  find_object tgt
    (scene_objects
       (current (fst (handle w [mkSceneAction "rotate_object" (Some tgt) ps]))))
  = Some (merge_object obj
            (update_rotation (spec_rotate axis degrees (rotation obj)))).
Proof.
  intros Htgt Haxis Hdeg Hfind.
  rewrite (handle_single w _ _
             (applyAction_rotate _ _ _ _ _ _ _ Htgt Haxis Hdeg Hfind)).
  unfold scene_objects in *. simpl.
  now apply find_object_updated.
Qed.

(** A rotation applied as a batch of its own: the rotation component that
    [params.axis] names grows by [params.degrees], without wrap-around, and
    the other two stay; applied again from the next render it grows again.
    The rest of the object is untouched.  [find_object] gives the first
    object with the id. *)
Lemma rotate_adds_degrees_between_renders
  (w : World) (tgt axis : string) (degrees : float) (ps : Params)
  (obj : SceneObject) :
  str_truthy tgt = true ->
  p_axis ps = Some axis ->
  p_degrees ps = Some degrees ->
  find_object tgt (scene_objects (current w)) = Some obj ->
  let rotate := mkSceneAction "rotate_object" (Some tgt) ps in
  let w1 := fst (handle w [rotate]) in
  let w2 := fst (handle w1 [rotate]) in
  exists obj1 obj2,
    find_object tgt (scene_objects (current w1)) = Some obj1 /\
    find_object tgt (scene_objects (current w2)) = Some obj2 /\
    rotation obj1 = spec_rotate axis degrees (rotation obj) /\
    rotation obj2 =
      spec_rotate axis degrees (spec_rotate axis degrees (rotation obj)) /\
    (position obj2, scale obj2, color obj2, visible obj2) =
      (position obj, scale obj, color obj, visible obj).
Proof.
  intros Htgt Haxis Hdeg Hfind rotate w1 w2.
  pose proof (handle_rotate w tgt axis degrees ps obj Htgt Haxis Hdeg Hfind)
    as H1. fold rotate w1 in H1.
  pose proof (handle_rotate w1 tgt axis degrees ps _ Htgt Haxis Hdeg H1)
    as H2. fold rotate w2 in H2.
  eexists. eexists. split; [exact H1|]. split; [exact H2|].
  repeat split.
Qed.

(** Two rotations of one object in one batch: both are computed from the
    rotation the object has in the state of the render, and the update of
    the second replaces the rotation that the first has set. *)
Lemma batch_of_two_rotations
  (w : World) (tgt axis1 axis2 : string) (deg1 deg2 : float)
  (ps1 ps2 : Params) (obj : SceneObject) :
  str_truthy tgt = true ->
  p_axis ps1 = Some axis1 -> p_degrees ps1 = Some deg1 ->
  p_axis ps2 = Some axis2 -> p_degrees ps2 = Some deg2 ->
  find_object tgt (scene_objects (current w)) = Some obj ->
  find_object tgt
    (scene_objects
       (current
          (fst (handle w [mkSceneAction "rotate_object" (Some tgt) ps1;
                          mkSceneAction "rotate_object" (Some tgt) ps2])))) =
  Some (merge_object obj
          (update_rotation (spec_rotate axis2 deg2 (rotation obj)))).
Proof.
  intros Htgt Ha1 Hd1 Ha2 Hd2 Hfind.
  rewrite handle_batch. cbn [applyActions].
  rewrite (applyAction_rotate _ _ _ _ _ _ _ Htgt Ha1 Hd1 Hfind).
  rewrite (applyAction_rotate _ _ _ _ _ _ _ Htgt Ha2 Hd2 Hfind).
  unfold scene_objects in *. simpl.
  erewrite find_object_updated; [|reflexivity|].
  2: { erewrite find_object_updated; [reflexivity|reflexivity|exact Hfind]. }
  now destruct obj.
Qed.

(** C9, on the code: [rotate_object] computes the new rotation from the
    object found in the state of the render and replaces the whole
    rotation of every object with the id.  On the conveyor of the default
    scene, whose rotation is [{x: 0, y: 0, z: 0}]: two rotations by 45
    degrees about [y] in one batch give [y = 45], as one does; a rotation
    by 10 degrees about [x] followed in the same batch by one about [y]
    leaves [x = 0]; as two batches the two rotations about [y] give
    [y = 90].  When a second object carries the id [robot_arm_1], a
    rotation by 10 degrees about [y] gives both the first one's
    [y = 45 + 10], also the one whose [y] was 0. *)
Theorem C9_batch_rotations_read_render_state :
  let rotate := fun (axis : string) (degrees : float) (tgt : string) =>
    mkSceneAction "rotate_object" (Some tgt)
      (mkParams None None None None None None None None (Some axis)
         (Some degrees) None None None None None None None None None
         None None None) in
  let rotations_of := fun (tgt : string) (w : World) =>
    map rotation
      (filter (fun obj => String.eqb (id obj) tgt)
         (scene_objects (current w))) in
  let twin := mkSceneAction "add_object" (Some "robot_arm_1") no_params in
  rotations_of "conveyor_1" initialWorld = [mkVector3 0 0 0] /\
  rotations_of "conveyor_1"
    (fst (handle initialWorld
            [rotate "y" 45%float "conveyor_1";
             rotate "y" 45%float "conveyor_1"])) = [mkVector3 0 45 0] /\
  handle initialWorld
    [rotate "y" 45%float "conveyor_1"; rotate "y" 45%float "conveyor_1"] =
    handle initialWorld [rotate "y" 45%float "conveyor_1"] /\
  rotations_of "conveyor_1"
    (fst (handle initialWorld
            [rotate "x" 10%float "conveyor_1";
             rotate "y" 45%float "conveyor_1"])) = [mkVector3 0 45 0] /\
  rotations_of "conveyor_1"
    (fst (handle
            (fst (handle initialWorld [rotate "y" 45%float "conveyor_1"]))
            [rotate "y" 45%float "conveyor_1"])) = [mkVector3 0 90 0] /\
  rotations_of "robot_arm_1" (fst (handle initialWorld [twin])) =
    [mkVector3 0 45 0; mkVector3 0 0 0] /\
  rotations_of "robot_arm_1"
    (fst (handle (fst (handle initialWorld [twin]))
            [rotate "y" 10%float "robot_arm_1"])) =
    [mkVector3 0 55 0; mkVector3 0 55 0].
Proof. repeat split; reflexivity. Qed.

(** ** Time-outs *)

Lemma In_insert_by_due (a t : Timer) (q : list Timer) :
  In a (insert_by_due t q) <-> a = t \/ In a q.
Proof.
  induction q as [|u q IH]; simpl.
  - intuition congruence.
  - destruct (N.leb (due t) (due u)); simpl; [intuition congruence|].
    rewrite IH. tauto.
Qed.

Lemma In_firing_order (a : Timer) (ts : list Timer) :
  In a (firing_order ts) <-> In a ts.
Proof.
  unfold firing_order. induction ts as [|t ts IH]; simpl; [tauto|].
  rewrite In_insert_by_due, IH. intuition congruence.
Qed.

Lemma pending_elapse (t : N) (w : World) (tm : Timer) :
  In tm (pending (elapse t w)) <-> In tm (pending w) /\ (t < due tm)%N.
Proof.
  unfold elapse, is_due. simpl. rewrite filter_In.
  destruct (N.leb_spec (due tm) t); simpl; intuition (discriminate || lia).
Qed.

Lemma reversals_keep_ids (ts : list Timer) (s : SceneState) :
  object_ids
    (reduce_all s (map (fun tm => highlight_reversal (timer_id tm)) ts)) =
  object_ids s.
Proof.
  revert s. induction ts as [|tm ts IH]; intros s; simpl; [reflexivity|].
  unfold reduce_all in *. rewrite IH.
  now apply update_keeps_ids.
Qed.

Lemma elapse_keeps_ids (t : N) (w : World) :
  object_ids (current (elapse t w)) = object_ids (current w).
Proof. unfold elapse. simpl. apply reversals_keep_ids. Qed.

Lemma reversal_turns_off (tgt : string) (s : SceneState) :
  highlight_off tgt (sceneReducer s (highlight_reversal tgt)).
Proof.
  intros obj Hin Hid. unfold scene_objects in Hin. simpl in Hin.
  apply in_map_iff in Hin. destruct Hin as [obj0 [<- _]].
  unfold updated in *.
  destruct (String.eqb_spec (id obj0) tgt) as [_|Hne]; [reflexivity|].
  contradiction.
Qed.

Lemma reversal_keeps_off (tgt other : string) (s : SceneState) :
  highlight_off tgt s ->
  highlight_off tgt (sceneReducer s (highlight_reversal other)).
Proof.
  intros Hoff obj Hin Hid. unfold scene_objects in Hin. simpl in Hin.
  apply in_map_iff in Hin. destruct Hin as [obj0 [<- Hin0]].
  unfold updated in *.
  destruct (String.eqb (id obj0) other); [reflexivity|].
  now apply Hoff.
Qed.

Lemma reversals_keep_off (tgt : string) (ts : list Timer) (s : SceneState) :
  highlight_off tgt s ->
  highlight_off tgt
    (reduce_all s (map (fun tm => highlight_reversal (timer_id tm)) ts)).
Proof.
  revert s. induction ts as [|tm ts IH]; intros s Hoff; simpl; [exact Hoff|].
  apply IH. now apply reversal_keeps_off.
Qed.

Lemma reversals_turn_off (tgt : string) (ts : list Timer) (s : SceneState) :
  In tgt (map timer_id ts) ->
  highlight_off tgt
    (reduce_all s (map (fun tm => highlight_reversal (timer_id tm)) ts)).
Proof.
  revert s. induction ts as [|tm ts IH]; intros s Hin; simpl in *.
  - contradiction.
  - destruct Hin as [<-|Hin].
    + apply reversals_keep_off, reversal_turns_off.
    + now apply IH.
Qed.

(** Once a time-out for [tgt] is due, the highlight of [tgt] is off. *)
Lemma elapse_turns_off (t : N) (w : World) (tm : Timer) :
  In tm (pending w) -> (due tm <= t)%N ->
  highlight_off (timer_id tm) (current (elapse t w)).
Proof.
  intros Hin Hdue. unfold elapse. simpl.
  apply reversals_turn_off, in_map, In_firing_order, filter_In.
  split; [exact Hin|]. unfold is_due. now apply N.leb_le.
Qed.

Lemma applyAction_highlight
  (s : SceneState) (now : N) (tgt : string) (ps : Params) :
  str_truthy tgt = true ->
  applyAction s now (mkSceneAction "highlight_object" (Some tgt) ps) =
  Done {| dispatched := [UPDATE_OBJECT tgt (update_highlighted (Some true))];
          started := [{| delay := duration_or_default (p_duration ps);
                         timeout_id := tgt |}];
          warned := [] |}.
Proof.
  intros Htgt. unfold applyAction.
  cbn [action target params switch_on case_labels String.eqb Ascii.eqb
       Bool.eqb].
  now rewrite (truthy_target_some tgt Htgt).
Qed.

Lemma handle_highlight (w : World) (tgt : string) (ps : Params) :
  str_truthy tgt = true ->
  handle w [mkSceneAction "highlight_object" (Some tgt) ps] =
  ({| current :=
        sceneReducer (current w)
          (UPDATE_OBJECT tgt (update_highlighted (Some true)));
      clock := clock w;
      pending :=
        pending w ++
        [{| due :=
              clock w + timeout_delay (duration_or_default (p_duration ps));
            timer_id := tgt |}] |},
   None).
Proof.
  intros Htgt.
  now rewrite (handle_single w _ _ (applyAction_highlight _ _ _ ps Htgt)).
Qed.

Lemma handle_remove (w : World) (tgt : string) (ps : Params) :
  str_truthy tgt = true ->
  handle w [mkSceneAction "remove_object" (Some tgt) ps] =
  ({| current := sceneReducer (current w) (REMOVE_OBJECT tgt);
      clock := clock w;
      pending := pending w |},
   None).
Proof.
  intros Htgt. unfold handle, applyActions, applyAction.
  cbn [action target params switch_on case_labels String.eqb Ascii.eqb
       Bool.eqb].
  rewrite (truthy_target_some tgt Htgt). simpl. now rewrite app_nil_r.
Qed.

(** ** Claims about the highlight time-out *)

(** C4 (as the code has it): a second [highlight_object] on an id starts a
    time-out of its own and cancels nothing: the first reversal is still
    pending beside the second one, and when the duration of the first
    action has elapsed it fires and turns the highlight off, also while the
    second reversal is still pending. *)
Theorem C4_second_highlight_keeps_first_reversal
  (w : World) (tgt : string) (ps1 ps2 : Params) (t : N) :
  str_truthy tgt = true ->
  (t < clock w + timeout_delay (duration_or_default (p_duration ps1)))%N ->
  let first_due :=
    (clock w + timeout_delay (duration_or_default (p_duration ps1)))%N in
  let w1 := fst (handle w [mkSceneAction "highlight_object" (Some tgt) ps1]) in
  let w2 := elapse t w1 in
  let w3 := fst (handle w2 [mkSceneAction "highlight_object" (Some tgt) ps2]) in
  let second_due :=
    (clock w2 + timeout_delay (duration_or_default (p_duration ps2)))%N in
  let w4 := elapse first_due w3 in
  In (mkTimer first_due tgt) (pending w3) /\
  In (mkTimer second_due tgt) (pending w3) /\
  (forall obj, In obj (scene_objects (current w3)) -> id obj = tgt ->
               highlighted obj = Some true) /\
  highlight_off tgt (current w4) /\
  ((first_due < second_due)%N -> In (mkTimer second_due tgt) (pending w4)).
Proof.
  intros Htgt Hbefore first_due w1 w2 w3 second_due w4.
  assert (H1 : In (mkTimer first_due tgt) (pending w1)).
  { subst w1. rewrite (handle_highlight w tgt ps1 Htgt). simpl.
    apply in_or_app. right. now left. }
  assert (H2 : In (mkTimer first_due tgt) (pending w2)).
  { subst w2. apply pending_elapse. split; [exact H1|exact Hbefore]. }
  assert (H3 : pending w3 = pending w2 ++ [mkTimer second_due tgt]).
  { subst w3. now rewrite (handle_highlight w2 tgt ps2 Htgt). }
  assert (Hfirst : In (mkTimer first_due tgt) (pending w3)).
  { rewrite H3. apply in_or_app. now left. }
  assert (Hsecond : In (mkTimer second_due tgt) (pending w3)).
  { rewrite H3. apply in_or_app. right. now left. }
  split; [exact Hfirst|]. split; [exact Hsecond|]. split; [|split].
  - subst w3. rewrite (handle_highlight w2 tgt ps2 Htgt). simpl.
    intros obj Hin Hid. unfold scene_objects in Hin. simpl in Hin.
    apply in_map_iff in Hin. destruct Hin as [obj0 [<- _]].
    unfold updated in *.
    destruct (String.eqb_spec (id obj0) tgt) as [_|Hne]; [reflexivity|].
    contradiction.
  - subst w4.
    apply (elapse_turns_off first_due w3 (mkTimer first_due tgt) Hfirst).
    simpl. lia.
  - intros Hlater. subst w4. apply pending_elapse.
    split; [exact Hsecond|exact Hlater].
Qed.

Lemma C4_second_highlight_keeps_first_reversal_witness :
  let hl := mkSceneAction "highlight_object" (Some "conveyor_1") no_params in
  let w1 := fst (handle initialWorld [hl]) in
  let w3 := fst (handle (elapse 2000 w1) [hl]) in
  (2000 < 0 + 3000)%N /\
  pending w3 = [mkTimer 3000 "conveyor_1"; mkTimer 5000 "conveyor_1"] /\
  highlight_off "conveyor_1" (current (elapse 3000 w3)).
Proof.
  split; [reflexivity|]. split; [reflexivity|].
  exact (proj1 (proj2 (proj2 (proj2
    (C4_second_highlight_keeps_first_reversal initialWorld "conveyor_1"
       no_params no_params 2000 eq_refl eq_refl))))).
Defined.

(** C4 fails as stated: the conveyor is highlighted at time 0 and again at
    time 2000, each time for 3000 ms.  At time 3000 the first reversal has
    fired and the highlight is off, 2000 ms before the duration of the
    second action has elapsed; its reversal is still pending. *)
Lemma C4_first_reversal_fires_early :
  let hl := mkSceneAction "highlight_object" (Some "conveyor_1") no_params in
  let w1 := fst (handle initialWorld [hl]) in
  let w2 := elapse 2000 w1 in
  let w3 := fst (handle w2 [hl]) in
  let w4 := elapse 3000 w3 in
  let flag := fun w : World =>
    option_map highlighted
      (find_object "conveyor_1" (scene_objects (current w))) in
  flag w2 = Some (Some true) /\
  pending w2 = [mkTimer 3000 "conveyor_1"] /\
  flag w3 = Some (Some true) /\
  pending w3 = [mkTimer 3000 "conveyor_1"; mkTimer 5000 "conveyor_1"] /\
  clock w4 = 3000%N /\
  flag w4 = Some (Some false) /\
  pending w4 = [mkTimer 5000 "conveyor_1"].
Proof. repeat split; reflexivity. Qed.

(** C8: an object is highlighted and then removed before the highlight
    duration has elapsed.  Neither action fails; the reversal is still
    pending when the object goes and has fired once the duration has
    elapsed; dispatching it on the state without the object returns that
    state; and after the time-out no object of the state has that id. *)
Theorem C8_removed_object_is_not_revived
  (w : World) (tgt : string) (ps ps' : Params) (t t' : N) :
  str_truthy tgt = true ->
  (t < clock w + timeout_delay (duration_or_default (p_duration ps)))%N ->
  (clock w + timeout_delay (duration_or_default (p_duration ps)) <= t')%N ->
  let reversal_due :=
    (clock w + timeout_delay (duration_or_default (p_duration ps)))%N in
  let r1 := handle w [mkSceneAction "highlight_object" (Some tgt) ps] in
  let w2 := elapse t (fst r1) in
  let r3 := handle w2 [mkSceneAction "remove_object" (Some tgt) ps'] in
  let w4 := elapse t' (fst r3) in
  snd r1 = None /\ snd r3 = None /\
  In (mkTimer reversal_due tgt) (pending (fst r3)) /\
  ~ In (mkTimer reversal_due tgt) (pending w4) /\
  sceneReducer (current (fst r3)) (highlight_reversal tgt) = current (fst r3) /\
  ~ In tgt (object_ids (current w4)) /\
  object_ids (current w4) = object_ids (current (fst r3)).
Proof.
  intros Htgt Hbefore Hafter reversal_due r1 w2 r3 w4.
  assert (Hgone : ~ In tgt (object_ids (current (fst r3)))).
  { subst r3. rewrite (handle_remove w2 tgt ps' Htgt). simpl.
    apply remove_drops_id. }
  split; [subst r1; now rewrite (handle_highlight w tgt ps Htgt)|].
  split; [subst r3; now rewrite (handle_remove w2 tgt ps' Htgt)|].
  split; [|split; [|split; [|split]]].
  - subst r3. rewrite (handle_remove w2 tgt ps' Htgt). simpl.
    subst w2. apply pending_elapse. split; [|exact Hbefore].
    subst r1. rewrite (handle_highlight w tgt ps Htgt). simpl.
    apply in_or_app. right. now left.
  - subst w4. rewrite pending_elapse. simpl. lia.
  - now apply update_absent.
  - subst w4. now rewrite elapse_keeps_ids.
  - subst w4. apply elapse_keeps_ids.
Qed.

Lemma C8_removed_object_is_not_revived_witness :
  let hl := mkSceneAction "highlight_object" (Some "conveyor_1") no_params in
  let rm := mkSceneAction "remove_object" (Some "conveyor_1") no_params in
  let w2 := elapse 1000 (fst (handle initialWorld [hl])) in
  let w4 := elapse 3000 (fst (handle w2 [rm])) in
  (1000 < 0 + 3000)%N /\ (0 + 3000 <= 3000)%N /\
  pending w2 = [mkTimer 3000 "conveyor_1"] /\
  ~ In "conveyor_1" (object_ids (current w4)).
Proof.
  assert (Hafter : (0 + 3000 <= 3000)%N) by lia.
  split; [reflexivity|]. split; [exact Hafter|]. split; [reflexivity|].
  exact (proj1 (proj2 (proj2 (proj2 (proj2 (proj2
    (C8_removed_object_is_not_revived initialWorld "conveyor_1"
       no_params no_params 1000 3000 eq_refl eq_refl Hafter))))))).
Defined.

(** * Further properties of the code *)

(** ** What a call of [applyAction] dispatches and starts *)

Ltac split_applyAction :=
  repeat match goal with
    | |- context [truthy_target ?t] => destruct (truthy_target t) eqn:?
    | |- context [opt_bool_truthy ?b] => destruct (opt_bool_truthy b) eqn:?
    | |- context [find_object ?t ?l] => destruct (find_object t l) eqn:?
    | |- context [match position ?o with _ => _ end] =>
        destruct (position o) eqn:?
    | |- context [match p_delta ?p with _ => _ end] =>
        destruct (p_delta p) eqn:?
    end.

Lemma applyAction_dispatches
  (s : SceneState) (now : N) (a : SceneAction) (e : Effects) :
  applyAction s now a = Done e ->
  forallb scene_dispatch (dispatched e) = true.
Proof.
  unfold applyAction.
  destruct (switch_on case_labels (action a)) as [[]|]; split_applyAction;
    intros H; inversion H; reflexivity.
Qed.

Lemma truthy_target_eq (t : option string) (tgt : string) :
  truthy_target t = Some tgt -> t = Some tgt.
Proof.
  unfold truthy_target. destruct t as [t0|]; [|discriminate].
  destruct (str_truthy t0); [|discriminate]. intros H. now inversion H.
Qed.

Lemma switch_on_highlight (kind : string) :
  switch_on case_labels kind = Some Highlight_object ->
  kind = "highlight_object".
Proof.
  intros H. apply switch_on_sound in H. simpl in H.
  repeat (destruct H as [H|H]; [inversion H; try reflexivity|]).
  contradiction.
Qed.

Lemma applyAction_starts
  (s : SceneState) (now : N) (a : SceneAction) (e : Effects) :
  applyAction s now a = Done e ->
  Forall (started_by a) (started e).
Proof.
  unfold applyAction.
  destruct (switch_on case_labels (action a)) as [[]|] eqn:Hcase;
    split_applyAction; intros H; inversion H; simpl; repeat constructor.
  - now apply switch_on_highlight.
  - now apply truthy_target_eq.
Qed.

Lemma applyActions_dispatches
  (s : SceneState) (now : N) (acts : list SceneAction) :
  forallb scene_dispatch (dispatched (fst (applyActions s now acts))) = true.
Proof.
  induction acts as [|a rest IH]; simpl; [reflexivity|].
  destruct (applyAction s now a) as [e|f] eqn:Hcall; [|reflexivity].
  destruct (applyActions s now rest) as [e' f']. simpl in *.
  rewrite forallb_app, IH, (applyAction_dispatches _ _ _ _ Hcall).
  reflexivity.
Qed.

Lemma applyActions_starts
  (s : SceneState) (now : N) (acts : list SceneAction) :
  Forall (fun t => exists a, In a acts /\ started_by a t)
    (started (fst (applyActions s now acts))).
Proof.
  induction acts as [|a rest IH]; simpl; [constructor|].
  destruct (applyAction s now a) as [e|f] eqn:Hcall; [|constructor].
  destruct (applyActions s now rest) as [e' f']. simpl in *.
  apply Forall_app. split.
  - eapply Forall_impl; [|exact (applyAction_starts _ _ _ _ Hcall)].
    intros t Ht. exists a. split; [now left|exact Ht].
  - eapply Forall_impl; [|exact IH].
    intros t [a0 [Hin Ht]]. exists a0. split; [now right|exact Ht].
Qed.

(** A property of states that every dispatched action of [applyAction]
    keeps is kept by every batch. *)
Lemma reduce_all_invariant
  (P : SceneState -> Prop) (acts : list SceneContextAction) (s : SceneState) :
  (forall s' act, scene_dispatch act = true -> P s' -> P (sceneReducer s' act)) ->
  forallb scene_dispatch acts = true ->
  P s -> P (reduce_all s acts).
Proof.
  intros Hstep. revert s.
  induction acts as [|act acts IH]; simpl; intros s Hall Hs; [exact Hs|].
  apply andb_prop in Hall. destruct Hall as [Hact Hall].
  apply IH; [exact Hall|]. now apply Hstep.
Qed.

Lemma handle_invariant
  (P : SceneState -> Prop) (w : World) (acts : list SceneAction) :
  (forall s' act, scene_dispatch act = true -> P s' -> P (sceneReducer s' act)) ->
  P (current w) -> P (current (fst (handle w acts))).
Proof.
  intros Hstep Hw. rewrite handle_batch. simpl.
  apply reduce_all_invariant; [exact Hstep| |exact Hw].
  apply applyActions_dispatches.
Qed.

Lemma elapse_invariant (P : SceneState -> Prop) (t : N) (w : World) :
  (forall s' act, scene_dispatch act = true -> P s' -> P (sceneReducer s' act)) ->
  P (current w) -> P (current (elapse t w)).
Proof.
  intros Hstep Hw. unfold elapse. simpl.
  apply reduce_all_invariant; [exact Hstep| |exact Hw].
  induction (firing_order (filter (is_due t) (pending w))); simpl;
    [reflexivity|assumption].
Qed.

(** ** Invariants of the reducer and of the batches *)

Lemma reduce_all_history_bound
  (acts : list SceneContextAction) (s : SceneState) :
  List.length (promptHistory s) <= 50 ->
  List.length (promptHistory (reduce_all s acts)) <= 50.
Proof.
  revert s. induction acts as [|act acts IH]; simpl; intros s Hs; [exact Hs|].
  apply IH. destruct act; try exact Hs.
  cbn [sceneReducer promptHistory]. rewrite length_firstn.
  apply Nat.le_min_l.
Qed.

(** X1: the prompt history never grows beyond 50 entries, whatever reducer
    actions are dispatched, and a new entry always comes first, before the
    49 most recent of the older ones. *)
Theorem history_is_bounded_newest_first
  (s : SceneState) (acts : list SceneContextAction) (e : PromptHistoryEntry) :
  List.length (promptHistory s) <= 50 ->
  let s' := reduce_all s acts in
  List.length (promptHistory s') <= 50 /\
  promptHistory (sceneReducer s' (ADD_PROMPT_HISTORY e)) =
    e :: firstn 49 (promptHistory s') /\
  List.length (promptHistory (sceneReducer s' (ADD_PROMPT_HISTORY e))) =
    Nat.min 50 (S (List.length (promptHistory s'))).
Proof.
  intros Hs s'. split; [now apply reduce_all_history_bound|].
  split; [reflexivity|].
  cbn [sceneReducer promptHistory]. now rewrite length_firstn.
Qed.

Lemma history_is_bounded_newest_first_witness :
  let e := mkPromptHistoryEntry "prompt_7" "reset"
             (mkActionResponse false [] "no intent" "reset") 7 in
  List.length (promptHistory initialState) <= 50 /\
  promptHistory
    (sceneReducer (reduce_all initialState [SET_LOADING true])
       (ADD_PROMPT_HISTORY e)) = [e].
Proof.
  assert (Hlen : List.length (promptHistory initialState) <= 50)
    by (simpl; lia).
  split; [exact Hlen|].
  exact (proj1 (proj2
    (history_is_bounded_newest_first initialState [SET_LOADING true]
       (mkPromptHistoryEntry "prompt_7" "reset"
          (mkActionResponse false [] "no intent" "reset") 7) Hlen))).
Defined.

Lemma filter_keeps_other_ids (tgt sel : string) (objs : list SceneObject) :
  sel <> tgt ->
  In sel (map id objs) ->
  In sel (map id (filter (fun obj => negb (String.eqb (id obj) tgt)) objs)).
Proof.
  intros Hne Hin. apply in_map_iff in Hin. destruct Hin as [obj [Hid Hin]].
  apply in_map_iff. exists obj. split; [exact Hid|].
  apply filter_In. split; [exact Hin|].
  subst sel. now destruct (String.eqb_spec (id obj) tgt).
Qed.

Lemma selection_valid_step (s : SceneState) (act : SceneContextAction) :
  scene_dispatch act = true ->
  selection_valid s -> selection_valid (sceneReducer s act).
Proof.
  unfold selection_valid. destruct act; simpl; try discriminate; intros Hd Hs;
    try exact Hs.
  - destruct (selectedObjectId s) as [sel|]; [|exact I].
    unfold object_ids, scene_objects in *. simpl.
    rewrite map_app. apply in_or_app. now left.
  - destruct (selectedObjectId s) as [sel|]; [|exact I].
    destruct (String.eqb_spec sel payload) as [_|Hne]; [exact I|].
    unfold object_ids, scene_objects in *. simpl.
    now apply filter_keeps_other_ids.
  - destruct (selectedObjectId s) as [sel|]; [|exact I].
    destruct (u_id updates) eqn:Hu; [discriminate|].
    change (In sel (object_ids (sceneReducer s (UPDATE_OBJECT payload_id updates)))).
    now rewrite (update_keeps_ids payload_id updates Hu).
  - exact I.
Qed.

(** X2: when the selection refers to an object of the scene, it still does
    (or is cleared) after any batch of actions and after any time-out has
    fired: removing the selected object clears the selection. *)
Theorem selection_stays_valid (w : World) (acts : list SceneAction) (t : N) :
  selection_valid (current w) ->
  selection_valid (current (fst (handle w acts))) /\
  selection_valid (current (elapse t w)).
Proof.
  intros Hw. split.
  - apply handle_invariant; [exact selection_valid_step|exact Hw].
  - apply elapse_invariant; [exact selection_valid_step|exact Hw].
Qed.

Lemma selection_stays_valid_witness :
  let w := dispatching initialWorld [SELECT_OBJECT (Some "conveyor_1")] in
  let rm := mkSceneAction "remove_object" (Some "conveyor_1") no_params in
  selection_valid (current w) /\
  selectedObjectId (current (fst (handle w [rm]))) = None /\
  selection_valid (current (fst (handle w [rm]))).
Proof.
  assert (Hw : selection_valid
    (current (dispatching initialWorld [SELECT_OBJECT (Some "conveyor_1")])))
    by (simpl; now left).
  split; [exact Hw|]. split; [reflexivity|].
  exact (proj1 (selection_stays_valid _
    [mkSceneAction "remove_object" (Some "conveyor_1") no_params] 0 Hw)).
Defined.

(** X3: no scene action and no time-out ever changes the prompt history or
    the loading flag. *)
Theorem batches_keep_history_and_loading
  (w : World) (acts : list SceneAction) (t : N) :
  promptHistory (current (fst (handle w acts))) = promptHistory (current w) /\
  isLoading (current (fst (handle w acts))) = isLoading (current w) /\
  promptHistory (current (elapse t w)) = promptHistory (current w) /\
  isLoading (current (elapse t w)) = isLoading (current w).
Proof.
  pose (P := fun s : SceneState =>
    promptHistory s = promptHistory (current w) /\
    isLoading s = isLoading (current w)).
  assert (Hstep : forall s' act,
    scene_dispatch act = true -> P s' -> P (sceneReducer s' act)).
  { intros s' act Hd Hs. destruct act; simpl in Hd; try discriminate; exact Hs. }
  assert (Hw : P (current w)) by (split; reflexivity).
  destruct (handle_invariant P w acts Hstep Hw) as [H1 H2].
  destruct (elapse_invariant P t w Hstep Hw) as [H3 H4].
  repeat split; assumption.
Qed.

Lemma transition_active_step (s : SceneState) (act : SceneContextAction) :
  scene_dispatch act = true ->
  active (cameraTransition s) = true ->
  active (cameraTransition (sceneReducer s act)) = true.
Proof.
  destruct act; simpl; try discriminate; intros Hd Hs; assumption.
Qed.

(** X4: once a camera transition has been requested, no scene action and no
    time-out makes it inactive again: [cameraTransition.active] stays
    true. *)
Theorem transition_never_returns_to_idle
  (w : World) (acts : list SceneAction) (t : N) :
  active (cameraTransition (current w)) = true ->
  active (cameraTransition (current (fst (handle w acts)))) = true /\
  active (cameraTransition (current (elapse t w))) = true.
Proof.
  intros Hw. split.
  - apply (handle_invariant
      (fun s => active (cameraTransition s) = true) w acts
      transition_active_step Hw).
  - apply (elapse_invariant
      (fun s => active (cameraTransition s) = true) t w
      transition_active_step Hw).
Qed.

Lemma transition_never_returns_to_idle_witness :
  let move :=
    mkSceneAction "camera_move" None
      (mkParams None None (Some (mkVector3 1 2 3)) None None None None None
         None None None None None None None None None None None None None
         None) in
  let w := fst (handle initialWorld [move]) in
  let later :=
    [ mkSceneAction "reset_scene" None no_params;
      mkSceneAction "camera_zoom" None no_params ] in
  active (cameraTransition (current w)) = true /\
  active (cameraTransition (current (fst (handle w later)))) = true.
Proof.
  intros move w later.
  assert (Hw : active (cameraTransition (current w)) = true) by reflexivity.
  split; [exact Hw|].
  exact (proj1 (transition_never_returns_to_idle w later 0 Hw)).
Defined.

(** X5: a batch never cancels a pending time-out: the ones that were
    pending still are, in the same order.  The time-outs it adds after them
    each come from a [highlight_object] action of the batch: for its
    target, and due when the delay that [setTimeout] makes of its duration
    has passed since the time of the batch. *)
Theorem batch_keeps_pending_timeouts (w : World) (acts : list SceneAction) :
  exists new,
    pending (fst (handle w acts)) = pending w ++ new /\
    Forall (fun tm =>
              exists a,
                In a acts /\
                action a = "highlight_object" /\
                target a = Some (timer_id tm) /\
                due tm =
                  (clock w +
                   timeout_delay
                     (duration_or_default (p_duration (params a))))%N)
           new.
Proof.
  rewrite handle_batch. simpl. eexists. split; [reflexivity|].
  apply Forall_map.
  eapply Forall_impl; [|apply applyActions_starts].
  intros tmo [a [Hin [Hkind [Htgt Hdelay]]]]. exists a.
  unfold start_timer. cbn [due timer_id]. rewrite Hdelay. now repeat split.
Qed.

(** ** Actions on one object *)

Lemma per_object_dispatches
  (s : SceneState) (now : N) (a : SceneAction) (tgt : string) (e : Effects) :
  In (action a) target_kinds ->
  target a = Some tgt ->
  applyAction s now a = Done e ->
  forallb (touches_only tgt) (dispatched e) = true.
Proof.
  destruct a as [kind t ps]. simpl. intros Hin Ht. subst t.
  repeat (destruct Hin as [<-|Hin]); try contradiction;
    unfold applyAction;
    cbn [action target params switch_on case_labels String.eqb Ascii.eqb
         Bool.eqb];
    unfold truthy_target; destruct (str_truthy tgt);
    split_applyAction; intros H; inversion H; simpl;
    rewrite ?String.eqb_refl; reflexivity.
Qed.

(** X6: an action of a kind that needs a target, given a null or empty
    target, does nothing at all: no dispatch, no time-out, no warning, and
    no failure whatever its parameters. *)
Theorem missing_target_is_silent (w : World) (a : SceneAction) :
  In (action a) target_kinds ->
  truthy_target (target a) = None ->
  applyAction (current w) (clock w) a = Done no_effects /\
  handle w [a] = (w, None).
Proof.
  intros Hin Ht.
  assert (Hcall : applyAction (current w) (clock w) a = Done no_effects).
  { destruct a as [kind t ps]. simpl in *.
    repeat (destruct Hin as [<-|Hin]); try contradiction;
      unfold applyAction;
      cbn [action target params switch_on case_labels String.eqb Ascii.eqb
           Bool.eqb];
      now rewrite Ht. }
  split; [exact Hcall|]. exact (handle_nothing w a [] Hcall).
Qed.

Lemma missing_target_is_silent_witness :
  let a := mkSceneAction "scale_object" (Some "") no_params in
  In (action a) target_kinds /\ truthy_target (target a) = None /\
  handle initialWorld [a] = (initialWorld, None).
Proof.
  assert (Hin : In "scale_object" target_kinds) by (simpl; tauto).
  split; [exact Hin|]. split; [reflexivity|].
  exact (proj2 (missing_target_is_silent initialWorld
    (mkSceneAction "scale_object" (Some "") no_params) Hin eq_refl)).
Defined.

Lemma updated_other (tgt : string) (u : ObjectUpdates) (obj : SceneObject) :
  String.eqb (id obj) tgt = false -> updated tgt u obj = obj.
Proof. intros H. unfold updated. now rewrite H. Qed.

Lemma filter_others_updated
  (tgt : string) (u : ObjectUpdates) (objs : list SceneObject) :
  u_id u = None ->
  filter (fun obj => negb (String.eqb (id obj) tgt)) (map (updated tgt u) objs) =
  filter (fun obj => negb (String.eqb (id obj) tgt)) objs.
Proof.
  intros Hu. induction objs as [|obj objs IH]; simpl; [reflexivity|].
  rewrite (upd_id tgt u Hu obj), IH.
  destruct (String.eqb (id obj) tgt) eqn:Heq; simpl; [reflexivity|].
  now rewrite (updated_other tgt u obj Heq).
Qed.

Lemma filter_twice {A : Type} (f : A -> bool) (l : list A) :
  filter f (filter f l) = filter f l.
Proof.
  induction l as [|a l IH]; simpl; [reflexivity|].
  destruct (f a) eqn:Hf; simpl; [rewrite Hf|]; now rewrite IH.
Qed.

Lemma touches_only_keeps_others
  (tgt : string) (acts : list SceneContextAction) (s : SceneState) :
  forallb (touches_only tgt) acts = true ->
  other_objects tgt (reduce_all s acts) = other_objects tgt s.
Proof.
  revert s. induction acts as [|act acts IH]; simpl; intros s Hall;
    [reflexivity|].
  apply andb_prop in Hall. destruct Hall as [Hact Hall].
  unfold reduce_all in *. rewrite (IH _ Hall).
  unfold other_objects, scene_objects.
  destruct act; simpl in Hact; try discriminate.
  - apply String.eqb_eq in Hact. subst payload. simpl. apply filter_twice.
  - apply andb_prop in Hact. destruct Hact as [Hid Hu].
    apply String.eqb_eq in Hid. subst payload_id. simpl.
    apply filter_others_updated. now destruct (u_id updates).
Qed.



Lemma remove_absent (s : SceneState) (tgt : string) :
  ~ In tgt (object_ids s) ->
  sceneData (sceneReducer s (REMOVE_OBJECT tgt)) = sceneData s.
Proof.
  destruct s as [[objs cam lig env] sel hist load trans].
  unfold object_ids, scene_objects. simpl. intros Hnot.
  unfold with_objects. simpl. f_equal.
  induction objs as [|obj objs IH]; simpl in *; [reflexivity|].
  destruct (String.eqb_spec (id obj) tgt) as [Heq|_]; simpl.
  - exfalso. apply Hnot. now left.
  - f_equal. apply IH. tauto.
Qed.

Lemma touches_only_absent
  (tgt : string) (acts : list SceneContextAction) (s : SceneState) :
  forallb (touches_only tgt) acts = true ->
  ~ In tgt (object_ids s) ->
  sceneData (reduce_all s acts) = sceneData s.
Proof.
  revert s. induction acts as [|act acts IH]; simpl; intros s Hall Hnot;
    [reflexivity|].
  apply andb_prop in Hall. destruct Hall as [Hact Hall].
  destruct act; simpl in Hact; try discriminate.
  - apply String.eqb_eq in Hact. subst payload.
    unfold reduce_all in *. rewrite IH; [now apply remove_absent|exact Hall|].
    apply remove_drops_id.
  - apply andb_prop in Hact. destruct Hact as [Hid Hu].
    apply String.eqb_eq in Hid. subst payload_id.
    unfold reduce_all in *.
    rewrite <- (update_absent tgt updates s Hnot) at 2.
    apply IH; [exact Hall|].
    now rewrite (update_absent tgt updates s Hnot).
Qed.

(** X8: an action on an id that no object of the scene has leaves the scene
    data (objects, camera, lighting, environment) as it is, whatever its
    kind and parameters. *)
Theorem action_on_absent_object_keeps_scene
  (w : World) (a : SceneAction) (tgt : string) :
  In (action a) target_kinds ->
  target a = Some tgt ->
  ~ In tgt (object_ids (current w)) ->
  sceneData (current (fst (handle w [a]))) = sceneData (current w).
Proof.
  intros Hin Ht Hnot. rewrite handle_batch. simpl.
  destruct (applyAction (current w) (clock w) a) as [e|f] eqn:Hcall;
    [|reflexivity].
  simpl. rewrite app_nil_r. apply (touches_only_absent tgt); [|exact Hnot].
  exact (per_object_dispatches _ _ _ _ _ Hin Ht Hcall).
Qed.

Lemma action_on_absent_object_keeps_scene_witness :
  let a :=
    mkSceneAction "set_color" (Some "crate_9")
      (mkParams None None None None None (Some "#00ff00") None None None
         None None None None None None None None None None None None None) in
  ~ In "crate_9" (object_ids (current initialWorld)) /\
  sceneData (current (fst (handle initialWorld [a]))) = createInitialScene.
Proof.
  intros a.
  assert (Hin : In (action a) target_kinds) by (simpl; tauto).
  assert (Hnot : ~ In "crate_9" (object_ids (current initialWorld))).
  { simpl. intros [H|[H|H]]; [discriminate H|discriminate H|exact H]. }
  split; [exact Hnot|].
  exact (action_on_absent_object_keeps_scene initialWorld a "crate_9" Hin
           eq_refl Hnot).
Defined.

(** ** How the actions of a batch compose *)

Lemma applyActions_app
  (s : SceneState) (now : N) (l1 l2 : list SceneAction) :
  snd (applyActions s now l1) = None ->
  applyActions s now (l1 ++ l2) =
  (join_effects (fst (applyActions s now l1)) (fst (applyActions s now l2)),
   snd (applyActions s now l2)).
Proof.
  induction l1 as [|a l1 IH]; simpl.
  - intros _. now destruct (applyActions s now l2) as [[d st wn] f].
  - destruct (applyAction s now a) as [e|f]; [|discriminate].
    destruct (applyActions s now l1) as [e1 f1]. simpl. intros Hf.
    rewrite (IH Hf). simpl. unfold join_effects. simpl.
    now rewrite !app_assoc.
Qed.

Lemma applyActions_failure
  (s : SceneState) (now : N) (l1 l2 : list SceneAction) (f : Failure) :
  snd (applyActions s now l1) = Some f ->
  applyActions s now (l1 ++ l2) = applyActions s now l1.
Proof.
  induction l1 as [|a l1 IH]; simpl; [discriminate|].
  destruct (applyAction s now a) as [e|f0]; [|reflexivity].
  destruct (applyActions s now l1) as [e1 f1]. simpl. intros Hf.
  now rewrite (IH Hf).
Qed.

(** X9: when an action of a batch throws, the actions before it have taken
    effect and the actions after it are never applied: the batch leaves the
    world the actions before it alone would leave. *)
Theorem failing_action_ends_the_batch
  (w : World) (before after : list SceneAction) (bad : SceneAction)
  (f : Failure) :
  snd (handle w before) = None ->
  applyAction (current w) (clock w) bad = Failed f ->
  handle w (before ++ bad :: after) = (fst (handle w before), Some f).
Proof.
  rewrite !handle_batch. simpl. intros Hbefore Hbad.
  rewrite (applyActions_app _ _ _ _ Hbefore). simpl. rewrite Hbad. simpl.
  unfold join_effects. simpl. now rewrite !app_nil_r.
Qed.

Lemma failing_action_ends_the_batch_witness :
  let recolor :=
    mkSceneAction "set_color" (Some "conveyor_1")
      (mkParams None None None None None (Some "#00ff00") None None None
         None None None None None None None None None None None None None) in
  let bad := mkSceneAction "move_object" (Some "conveyor_1") no_params in
  let remove := mkSceneAction "remove_object" (Some "robot_arm_1") no_params in
  snd (handle initialWorld [recolor]) = None /\
  applyAction initialState 0 bad = Failed TypeError /\
  handle initialWorld [recolor; bad; remove] =
    (fst (handle initialWorld [recolor]), Some TypeError).
Proof.
  intros recolor bad remove.
  split; [reflexivity|]. split; [reflexivity|].
  exact (failing_action_ends_the_batch initialWorld [recolor] [remove] bad
           TypeError eq_refl eq_refl).
Defined.

Lemma fold_reduce_all (s : SceneState) (acts : list SceneContextAction) :
  fold_left sceneReducer acts s = reduce_all s acts.
Proof. reflexivity. Qed.





Lemma skip_in_batch
  (w : World) (before after : list SceneAction) (a : SceneAction)
  (e : Effects) :
  applyAction (current w) (clock w) a = Done e ->
  dispatched e = [] ->
  started e = [] ->
  handle w (before ++ a :: after) = handle w (before ++ after).
Proof.
  intros Hcall Hd Hs. rewrite !handle_batch.
  destruct (snd (applyActions (current w) (clock w) before)) as [f|] eqn:Hb.
  - now rewrite !(applyActions_failure _ _ _ _ _ Hb).
  - rewrite !(applyActions_app _ _ _ _ Hb).
    rewrite (applyActions_cons_done _ _ _ _ _ Hcall). simpl.
    now rewrite Hd, Hs.
Qed.

Lemma find_object_absent (tgt : string) (objs : list SceneObject) :
  ~ In tgt (map id objs) -> find_object tgt objs = None.
Proof.
  unfold find_object. induction objs as [|obj objs IH]; simpl; intros Hnot;
    [reflexivity|].
  destruct (String.eqb_spec (id obj) tgt) as [Heq|_]; [|apply IH; tauto].
  exfalso. apply Hnot. now left.
Qed.

(** X11: a relative move or a rotation of an object that is not in the
    state of the render is dropped, also when an earlier action of the same
    batch creates that object: the batch acts as if the action were not
    there. *)
Theorem stale_read_drops_action_on_new_object
  (w : World) (before after : list SceneAction) (a : SceneAction)
  (tgt : string) :
  reads_render_state a = true ->
  target a = Some tgt ->
  ~ In tgt (object_ids (current w)) ->
  handle w (before ++ a :: after) = handle w (before ++ after).
Proof.
  intros Hreads Ht Hnot.
  apply (skip_in_batch w before after a no_effects); try reflexivity.
  unfold reads_render_state, applyAction in *. rewrite Ht in *.
  pose proof (find_object_absent tgt _ Hnot) as Hfind.
  unfold scene_objects in Hfind.
  destruct (switch_on case_labels (action a)) as [[]|]; try discriminate.
  - destruct (truthy_target (Some tgt)) as [t|] eqn:Htt; [|discriminate].
    unfold truthy_target in Htt.
    destruct (str_truthy tgt); inversion Htt; subst t.
    destruct (opt_bool_truthy (p_absolute (params a))); [discriminate|].
    now rewrite Hfind.
  - destruct (truthy_target (Some tgt)) as [t|] eqn:Htt; [|discriminate].
    unfold truthy_target in Htt.
    destruct (str_truthy tgt); inversion Htt; subst t.
    now rewrite Hfind.
Qed.

Lemma stale_read_drops_action_on_new_object_witness :
  let add := mkSceneAction "add_object" (Some "box_1") no_params in
  let move :=
    mkSceneAction "move_object" (Some "box_1")
      (mkParams None None None None None None
         (Some false) (Some (mkVector3 2 0 0)) None None None
         None None None None None None None None None None None) in
  reads_render_state move = true /\
  ~ In "box_1" (object_ids (current initialWorld)) /\
  handle initialWorld [add; move] = handle initialWorld [add] /\
  option_map position
    (find_object "box_1"
       (scene_objects (current (fst (handle initialWorld [add; move]))))) =
    Some (Some (mkVector3 0 0 0)).
Proof.
  intros add move.
  assert (Hnot : ~ In "box_1" (object_ids (current initialWorld))).
  { simpl. intros [H|[H|H]]; [discriminate H|discriminate H|exact H]. }
  split; [reflexivity|]. split; [exact Hnot|]. split; [|reflexivity].
  exact (stale_read_drops_action_on_new_object initialWorld [add] [] move
           "box_1" eq_refl eq_refl Hnot).
Defined.

(** X12: an action of an unknown kind inside a batch changes nothing for
    the rest of the batch: the actions around it are applied as if it were
    not there. *)
Theorem unknown_kind_is_skipped_in_batch
  (w : World) (before after : list SceneAction) (a : SceneAction) :
  ~ In (action a) ActionKinds ->
  handle w (before ++ a :: after) = handle w (before ++ after).
Proof.
  intros Hunknown.
  apply (skip_in_batch w before after a
           {| dispatched := []; started := [];
              warned := [("Unknown action type: " ++ action a)%string] |});
    try reflexivity.
  unfold applyAction.
  now rewrite (switch_on_unknown case_labels (action a) Hunknown).
Qed.

Lemma unknown_kind_is_skipped_in_batch_witness :
  let typo := mkSceneAction "remove_objekt" (Some "conveyor_1") no_params in
  let remove := mkSceneAction "remove_object" (Some "robot_arm_1") no_params in
  ~ In (action typo) ActionKinds /\
  handle initialWorld [typo; remove] = handle initialWorld [remove].
Proof.
  intros typo remove.
  assert (Hunknown : ~ In (action typo) ActionKinds).
  { simpl. intros H.
    repeat (destruct H as [H|H]; [discriminate H|]). exact H. }
  split; [exact Hunknown|].
  exact (unknown_kind_is_skipped_in_batch initialWorld [] [remove] typo
           Hunknown).
Defined.

(** ** The highlight and its time-out *)

(** Every object with id [tgt] has its highlight on. *)
Lemma reversal_of_other_keeps_on
  (tgt other : string) (s : SceneState) :
  other <> tgt ->
  (forall obj, In obj (scene_objects s) -> id obj = tgt ->
               highlighted obj = Some true) ->
  forall obj, In obj (scene_objects (sceneReducer s (highlight_reversal other))) ->
              id obj = tgt -> highlighted obj = Some true.
Proof.
  intros Hne Hon obj Hin Hid. unfold scene_objects in Hin. simpl in Hin.
  apply in_map_iff in Hin. destruct Hin as [obj0 [<- Hin0]].
  unfold updated in *.
  destruct (String.eqb_spec (id obj0) other) as [Heq|_].
  - simpl in Hid. congruence.
  - now apply Hon.
Qed.

Lemma reversals_of_others_keep_on
  (tgt : string) (ts : list Timer) (s : SceneState) :
  Forall (fun tm => timer_id tm <> tgt) ts ->
  (forall obj, In obj (scene_objects s) -> id obj = tgt ->
               highlighted obj = Some true) ->
  forall obj,
    In obj (scene_objects
              (reduce_all s (map (fun tm => highlight_reversal (timer_id tm)) ts))) ->
    id obj = tgt -> highlighted obj = Some true.
Proof.
  revert s. induction ts as [|tm ts IH]; intros s Hall Hon; simpl;
    [exact Hon|].
  inversion Hall as [|? ? Htm Hrest]; subst.
  apply IH; [exact Hrest|]. now apply reversal_of_other_keeps_on.
Qed.

(** The delay of some durations: fractions are cut off, a negative
    duration and one of 2^31 or more that wraps to a negative [long] give no
    delay at all, and 2^32 + 5 wraps to 5. *)
Lemma timeout_delay_examples :
  timeout_delay (duration_or_default None) = 3000%N /\
  timeout_delay (duration_or_default (Some 0%float)) = 3000%N /\
  timeout_delay (duration_or_default (Some 1500.75%float)) = 1500%N /\
  timeout_delay (duration_or_default (Some (-5)%float)) = 0%N /\
  timeout_delay (duration_or_default (Some 0.5%float)) = 0%N /\
  timeout_delay (duration_or_default (Some 2147483647%float)) =
    2147483647%N /\
  timeout_delay (duration_or_default (Some 2147483648%float)) = 0%N /\
  timeout_delay (duration_or_default (Some 4294967301%float)) = 5%N /\
  timeout_delay (duration_or_default (Some PrimFloat.infinity)) = 0%N.
Proof. repeat split; reflexivity. Qed.

(** X13: a highlight of an object for whose id no time-out is pending lasts
    for the delay that [setTimeout] makes of its duration: the duration
    ([3000] when none or a falsy one is given) cut to a signed 32-bit
    integer, and no delay when that is negative.  Until that delay has
    passed since the batch, the highlight of every object with the id is
    on; from then on it is off. *)
Theorem highlight_lasts_for_its_duration
  (w : World) (tgt : string) (ps : Params) (t : N) :
  str_truthy tgt = true ->
  Forall (fun tm => timer_id tm <> tgt) (pending w) ->
  let w1 := fst (handle w [mkSceneAction "highlight_object" (Some tgt) ps]) in
  let reversal_due :=
    (clock w + timeout_delay (duration_or_default (p_duration ps)))%N in
  ((t < reversal_due)%N ->
   forall obj, In obj (scene_objects (current (elapse t w1))) ->
               id obj = tgt -> highlighted obj = Some true) /\
  ((reversal_due <= t)%N -> highlight_off tgt (current (elapse t w1))).
Proof.
  intros Htgt Hothers w1 reversal_due.
  assert (Hw1 : w1 =
    {| current :=
         sceneReducer (current w)
           (UPDATE_OBJECT tgt (update_highlighted (Some true)));
       clock := clock w;
       pending := pending w ++ [mkTimer reversal_due tgt] |}).
  { subst w1. now rewrite (handle_highlight w tgt ps Htgt). }
  split.
  - intros Hbefore. rewrite Hw1. unfold elapse. cbn [current pending].
    apply reversals_of_others_keep_on.
    + apply Forall_forall. intros tm Hin.
      apply In_firing_order, filter_In in Hin. destruct Hin as [Hin Hdue].
      apply in_app_or in Hin. destruct Hin as [Hin|[<-|[]]].
      * exact (proj1 (Forall_forall _ _) Hothers tm Hin).
      * unfold is_due in Hdue. cbn [due] in Hdue. apply N.leb_le in Hdue.
        lia.
    + intros obj Hin Hid. unfold scene_objects in Hin. simpl in Hin.
      apply in_map_iff in Hin. destruct Hin as [obj0 [<- _]].
      unfold updated in *.
      destruct (String.eqb_spec (id obj0) tgt) as [_|Hne]; [reflexivity|].
      contradiction.
  - intros Hafter.
    apply (elapse_turns_off t w1 (mkTimer reversal_due tgt)); [|exact Hafter].
    rewrite Hw1. cbn [pending]. apply in_or_app. right. now left.
Qed.

Lemma highlight_lasts_for_its_duration_witness :
  let hl := mkSceneAction "highlight_object" (Some "conveyor_1") no_params in
  let flag := fun w : World =>
    option_map highlighted
      (find_object "conveyor_1" (scene_objects (current w))) in
  Forall (fun tm => timer_id tm <> "conveyor_1") (pending initialWorld) /\
  flag (elapse 2999 (fst (handle initialWorld [hl]))) = Some (Some true) /\
  highlight_off "conveyor_1"
    (current (elapse 3000 (fst (handle initialWorld [hl])))).
Proof.
  intros hl flag.
  assert (Hothers : Forall (fun tm => timer_id tm <> "conveyor_1")
                      (pending initialWorld)) by constructor.
  assert (Hafter : (0 + 3000 <= 3000)%N) by lia.
  split; [exact Hothers|]. split; [reflexivity|].
  exact (proj2 (highlight_lasts_for_its_duration initialWorld "conveyor_1"
                  no_params 3000 eq_refl Hothers) Hafter).
Defined.

Lemma reversal_frame (s : SceneState) (tgt : string) :
  let s' := sceneReducer s (highlight_reversal tgt) in
  map forget_highlight (scene_objects s') =
    map forget_highlight (scene_objects s) /\
  camera (sceneData s') = camera (sceneData s) /\
  lighting (sceneData s') = lighting (sceneData s) /\
  environment (sceneData s') = environment (sceneData s) /\
  selectedObjectId s' = selectedObjectId s /\
  cameraTransition s' = cameraTransition s.
Proof.
  simpl. repeat split. unfold scene_objects. simpl.
  rewrite map_map. apply map_ext. intros obj. unfold updated.
  now destruct (String.eqb (id obj) tgt).
Qed.

(** X14: a time-out that fires changes nothing but highlight flags: the
    objects keep their order and all their other fields, and the camera,
    the lighting, the environment, the selection and the camera transition
    stay as they are. *)
Theorem timeouts_change_highlight_only (t : N) (w : World) :
  map forget_highlight (scene_objects (current (elapse t w))) =
    map forget_highlight (scene_objects (current w)) /\
  camera (sceneData (current (elapse t w))) = camera (sceneData (current w)) /\
  lighting (sceneData (current (elapse t w))) =
    lighting (sceneData (current w)) /\
  environment (sceneData (current (elapse t w))) =
    environment (sceneData (current w)) /\
  selectedObjectId (current (elapse t w)) = selectedObjectId (current w) /\
  cameraTransition (current (elapse t w)) = cameraTransition (current w).
Proof.
  unfold elapse. cbn [current].
  generalize (firing_order (filter (is_due t) (pending w))).
  generalize (current w). intros s ready. revert s.
  induction ready as [|tm ready IH]; intros s; [repeat split|].
  specialize (IH (sceneReducer s (highlight_reversal (timer_id tm)))).
  cbn [map]. unfold reduce_all in *. cbn [fold_left].
  destruct IH as [H1 [H2 [H3 [H4 [H5 H6]]]]].
  destruct (reversal_frame s (timer_id tm)) as [G1 [G2 [G3 [G4 [G5 G6]]]]].
  rewrite H1, H2, H3, H4, H5, H6. repeat split; assumption.
Qed.

(** ** The inspector panel *)

Lemma find_object_present (tgt : string) (objs : list SceneObject) :
  In tgt (map id objs) -> exists obj, find_object tgt objs = Some obj.
Proof.
  unfold find_object. induction objs as [|obj objs IH]; simpl; [tauto|].
  intros [Heq|Hin].
  - subst tgt. rewrite String.eqb_refl. now exists obj.
  - destruct (String.eqb (id obj) tgt); [now exists obj|now apply IH].
Qed.

(** X15: deleting the selected object removes every object with that id,
    keeps the others as they are and clears the selection; after that the
    panel's handlers dispatch nothing until an object is selected again. *)
Theorem deleteObject_clears_selection (w : World) (sel : string) (now : N) :
  truthy_target (selectedObjectId (current w)) = Some sel ->
  let w' := dispatching w (deleteObject (current w)) in
  selectedObjectId (current w') = None /\
  ~ In sel (object_ids (current w')) /\
  other_objects sel (current w') = other_objects sel (current w) /\
  deleteObject (current w') = [] /\
  duplicateObject (current w') now = Done [] /\
  (forall updates, updateObject (current w') updates = []).
Proof.
  intros Hsel w'.
  assert (Hdel : deleteObject (current w) = [REMOVE_OBJECT sel]).
  { unfold deleteObject. now rewrite Hsel. }
  assert (Hw' : current w' = sceneReducer (current w) (REMOVE_OBJECT sel)).
  { subst w'. now rewrite Hdel. }
  assert (Hid : selectedObjectId (current w) = Some sel).
  { unfold truthy_target in Hsel.
    destruct (selectedObjectId (current w)) as [s0|]; [|discriminate].
    destruct (str_truthy s0); now inversion Hsel. }
  assert (Hnone : selectedObjectId (current w') = None).
  { rewrite Hw'. simpl. now rewrite Hid, String.eqb_refl. }
  split; [exact Hnone|].
  split; [rewrite Hw'; apply remove_drops_id|].
  split.
  { rewrite Hw'.
    apply (touches_only_keeps_others sel [REMOVE_OBJECT sel]).
    simpl. now rewrite String.eqb_refl. }
  unfold deleteObject, duplicateObject, updateObject, selectedObject.
  rewrite Hnone. repeat split.
Qed.

Lemma deleteObject_clears_selection_witness :
  let w := dispatching initialWorld [SELECT_OBJECT (Some "robot_arm_1")] in
  truthy_target (selectedObjectId (current w)) = Some "robot_arm_1" /\
  scene_objects (current (dispatching w (deleteObject (current w)))) =
    [conveyor_1] /\
  selectedObjectId (current (dispatching w (deleteObject (current w)))) = None.
Proof.
  intros w. split; [reflexivity|]. split; [reflexivity|].
  exact (proj1 (deleteObject_clears_selection w "robot_arm_1" 0 eq_refl)).
Defined.

Lemma selectedObject_found (s : SceneState) (sel : SceneObject) :
  selectedObject s = Some sel ->
  truthy_target (selectedObjectId s) = Some (id sel) /\
  find_object (id sel) (scene_objects s) = Some sel.
Proof.
  unfold selectedObject, scene_objects.
  destruct (truthy_target (selectedObjectId s)) as [sid|]; [|discriminate].
  intros Hfind. rewrite (find_object_id _ _ _ Hfind). now split.
Qed.

(** X16: the copy that [duplicateObject] makes of a highlighted object is
    highlighted as well, and the time-out of the original does not reach
    it.  Stated for a selected object with a position, for a copy whose id
    is new to the scene and for pending time-outs that are all for objects
    of the scene: the handler dispatches one new object; at every later
    time the scene holds an object with the copy's id, and each such object
    is highlighted; and once a time-out pending for the original's id is
    due, every object with the original's id has its highlight off. *)
Theorem copy_of_highlighted_object_stays_highlighted
  (w : World) (sel : SceneObject) (pos : Vector3) (t : N) :
  selectedObject (current w) = Some sel ->
  position sel = Some pos ->
  highlighted sel = Some true ->
  let copy_id := (type_name (type sel) ++ "_" ++ show_N (clock w))%string in
  ~ In copy_id (object_ids (current w)) ->
  Forall (fun tm => In (timer_id tm) (object_ids (current w))) (pending w) ->
  exists new,
    duplicateObject (current w) (clock w) = Done [ADD_OBJECT new] /\
    let w' := elapse t (dispatching w [ADD_OBJECT new]) in
    In copy_id (object_ids (current w')) /\
    (forall copy, In copy (scene_objects (current w')) -> id copy = copy_id ->
                  highlighted copy = Some true) /\
    (forall tm, In tm (pending w) -> timer_id tm = id sel -> (due tm <= t)%N ->
                highlight_off (id sel) (current w')).
Proof.
  intros Hsel Hpos Hhl copy_id Hfresh Hscene.
  assert (Hothers : Forall (fun tm => timer_id tm <> copy_id) (pending w)).
  { eapply Forall_impl; [|exact Hscene]. intros tm Hin Heq.
    apply Hfresh. now rewrite <- Heq. }
  assert (Hdup : exists new,
    duplicateObject (current w) (clock w) = Done [ADD_OBJECT new] /\
    id new = copy_id /\ highlighted new = Some true).
  { unfold duplicateObject. rewrite Hsel, Hpos. eexists.
    split; [reflexivity|]. split; [reflexivity|exact Hhl]. }
  destruct Hdup as [new [Hdup [Hnew_id Hnew_hl]]].
  exists new. split; [exact Hdup|]. cbv zeta. split; [|split].
  - rewrite elapse_keeps_ids.
    unfold dispatching, object_ids, scene_objects. simpl. rewrite map_app.
    apply in_or_app. right. simpl. now left.
  - unfold elapse, dispatching. cbn [current pending].
    apply reversals_of_others_keep_on.
    + apply Forall_forall. intros tm Hin.
      apply In_firing_order, filter_In in Hin.
      exact (proj1 (Forall_forall _ _) Hothers tm (proj1 Hin)).
    + intros obj Hin Hid. unfold scene_objects in Hin. simpl in Hin.
      apply in_app_or in Hin. destruct Hin as [Hin|[<-|[]]]; [|exact Hnew_hl].
      exfalso. apply Hfresh. rewrite <- Hid.
      unfold object_ids, scene_objects. now apply in_map.
  - intros tm Hin Hid Hdue. rewrite <- Hid.
    now apply (elapse_turns_off t (dispatching w [ADD_OBJECT new]) tm).
Qed.

Lemma copy_of_highlighted_object_stays_highlighted_witness :
  let hl := mkSceneAction "highlight_object" (Some "conveyor_1") no_params in
  let w :=
    elapse 1000
      (dispatching (fst (handle initialWorld [hl]))
         [SELECT_OBJECT (Some "conveyor_1")]) in
  pending w = [mkTimer 3000 "conveyor_1"] /\
  exists new,
    duplicateObject (current w) (clock w) = Done [ADD_OBJECT new] /\
    let w' := elapse 10000 (dispatching w [ADD_OBJECT new]) in
    object_ids (current w') = ["conveyor_1"; "robot_arm_1"; "conveyor_1000"] /\
    option_map highlighted
      (find_object "conveyor_1000" (scene_objects (current w'))) =
      Some (Some true) /\
    highlight_off "conveyor_1" (current w').
Proof.
  intros hl w.
  assert (Hfresh : ~ In "conveyor_1000" (object_ids (current w))).
  { simpl. intros [H|[H|H]]; [discriminate H|discriminate H|exact H]. }
  assert (Hscene : Forall (fun tm => In (timer_id tm) (object_ids (current w)))
                     (pending w)).
  { repeat constructor. }
  assert (Hdue : (3000 <= 10000)%N) by lia.
  split; [reflexivity|].
  destruct (copy_of_highlighted_object_stays_highlighted w _
              (mkVector3 0 0.5 0) 10000 eq_refl eq_refl eq_refl Hfresh Hscene)
    as [new [Hdup [_ [_ Hoff]]]].
  exists new. split; [exact Hdup|].
  unfold duplicateObject in Hdup. simpl in Hdup. inversion Hdup; subst new.
  split; [reflexivity|]. split; [reflexivity|].
  exact (Hoff (mkTimer 3000 "conveyor_1") (or_introl eq_refl) eq_refl Hdue).
Defined.

Lemma unique_id_object
  (tgt : string) (objs : list SceneObject) (sel obj : SceneObject) :
  NoDup (map id objs) ->
  find_object tgt objs = Some sel ->
  In obj objs -> id obj = tgt -> obj = sel.
Proof.
  unfold find_object.
  induction objs as [|o objs IH]; simpl; intros Hnd Hfind Hin Hid;
    [contradiction|].
  inversion Hnd as [|? ? Hnotin Hnd']; subst.
  destruct (String.eqb_spec (id o) (id obj)) as [Heq|Hne].
  - inversion Hfind; subst. destruct Hin as [Hin|Hin]; [now symmetry|].
    exfalso. apply Hnotin. rewrite Heq. now apply in_map.
  - destruct Hin as [Hin|Hin]; [subst; contradiction|].
    now apply IH.
Qed.

Lemma merge_visible_twice (obj : SceneObject) (v : bool) :
  visible obj = Some v ->
  merge_object
    (merge_object obj
       (update_visible (Some (negb (opt_bool_truthy (visible obj))))))
    (update_visible (Some (negb (negb v)))) = obj.
Proof.
  destruct obj. simpl. intros ->. now rewrite negb_involutive.
Qed.

(** X17: in a scene whose ids are pairwise distinct, switching the
    visibility of the selected object twice gives back the state it started
    from, when the object's [visible] is a boolean.  After the first switch
    the object has the opposite visibility; it is visible when the field
    was [undefined]. *)
Theorem toggling_visibility_twice_restores (w : World) (sel : SceneObject) :
  selectedObject (current w) = Some sel ->
  NoDup (object_ids (current w)) ->
  let w1 := dispatching w (toggleVisible (current w)) in
  let w2 := dispatching w1 (toggleVisible (current w1)) in
  option_map visible (find_object (id sel) (scene_objects (current w1))) =
    Some (Some (negb (opt_bool_truthy (visible sel)))) /\
  (forall v, visible sel = Some v -> current w2 = current w).
Proof.
  intros Hsel Hnd w1 w2.
  destruct (selectedObject_found _ _ Hsel) as [Hid Hfind].
  set (u1 := update_visible (Some (negb (opt_bool_truthy (visible sel))))).
  assert (H1 : current w1 =
               sceneReducer (current w) (UPDATE_OBJECT (id sel) u1)).
  { subst w1. unfold toggleVisible, updateObject. now rewrite Hsel, Hid. }
  assert (Hfind1 : find_object (id sel) (scene_objects (current w1)) =
                   Some (merge_object sel u1)).
  { rewrite H1. unfold scene_objects in *. simpl.
    now apply find_object_updated. }
  split; [now rewrite Hfind1|]. intros v Hv.
  assert (H2 : toggleVisible (current w1) =
    [UPDATE_OBJECT (id sel) (update_visible (Some (negb (negb v))))]).
  { unfold toggleVisible, updateObject, selectedObject.
    assert (Hs : selectedObjectId (current w1) = selectedObjectId (current w))
      by now rewrite H1.
    rewrite Hs, Hid. unfold scene_objects in Hfind1. rewrite Hfind1.
    subst u1. simpl. now rewrite Hv. }
  subst w2. rewrite H2. unfold dispatching. cbn [current reduce_all fold_left].
  rewrite H1. clear H1 H2 Hfind1 w1.
  unfold object_ids, scene_objects in *.
  destruct (current w) as [[objs cam lig env] sel_id hist load trans].
  simpl in *. unfold with_sceneData, with_objects. simpl. do 2 f_equal.
  rewrite map_map. rewrite <- (map_id objs) at 2.
  apply map_ext_in. intros obj Hin. unfold updated.
  destruct (String.eqb_spec (id obj) (id sel)) as [Heq|Hne].
  - simpl. rewrite Heq, String.eqb_refl.
    rewrite (unique_id_object _ _ _ _ Hnd Hfind Hin Heq).
    subst u1. now apply merge_visible_twice.
  - now destruct (String.eqb_spec (id obj) (id sel)).
Qed.

Lemma toggling_visibility_twice_restores_witness :
  let w := dispatching initialWorld [SELECT_OBJECT (Some "robot_arm_1")] in
  let w1 := dispatching w (toggleVisible (current w)) in
  let w2 := dispatching w1 (toggleVisible (current w1)) in
  selectedObject (current w) = Some robot_arm_1 /\
  NoDup (object_ids (current w)) /\
  option_map visible
    (find_object "robot_arm_1" (scene_objects (current w1))) =
    Some (Some false) /\
  current w2 = current w.
Proof.
  intros w w1 w2.
  assert (Hnd : NoDup (object_ids (current w))).
  { repeat constructor; simpl; intuition discriminate. }
  split; [reflexivity|]. split; [exact Hnd|].
  destruct (toggling_visibility_twice_restores w robot_arm_1 eq_refl Hnd)
    as [Hfirst Hback].
  split; [exact Hfirst|exact (Hback true eq_refl)].
Defined.

(** ** The prompt panel *)

Lemma sceneData_step (s1 s2 : SceneState) (act : SceneContextAction) :
  sceneData s1 = sceneData s2 ->
  sceneData (sceneReducer s1 act) = sceneData (sceneReducer s2 act).
Proof. intros H. destruct act; simpl; rewrite ?H; reflexivity. Qed.

Lemma sceneData_reduce_all
  (acts : list SceneContextAction) (s1 s2 : SceneState) :
  sceneData s1 = sceneData s2 ->
  sceneData (reduce_all s1 acts) = sceneData (reduce_all s2 acts).
Proof.
  revert s1 s2. induction acts as [|act acts IH]; intros s1 s2 H; [exact H|].
  apply IH. now apply sceneData_step.
Qed.

Lemma history_step (s : SceneState) (act : SceneContextAction) :
  scene_dispatch act = true ->
  promptHistory (sceneReducer s act) = promptHistory s.
Proof. destruct act; simpl; try discriminate; reflexivity. Qed.

Lemma history_reduce_all (acts : list SceneContextAction) (s : SceneState) :
  forallb scene_dispatch acts = true ->
  promptHistory (reduce_all s acts) = promptHistory s.
Proof.
  intros Hall.
  apply (reduce_all_invariant
           (fun s' => promptHistory s' = promptHistory s) acts s);
    [|exact Hall|reflexivity].
  intros s' act Hd Hs. now rewrite history_step.
Qed.

Lemma history_elapse (t : N) (w : World) :
  promptHistory (current (elapse t w)) = promptHistory (current w).
Proof.
  apply (elapse_invariant
           (fun s' => promptHistory s' = promptHistory (current w)) t w);
    [|reflexivity].
  intros s' act Hd Hs. now rewrite history_step.
Qed.

Section PromptPanelFacts.

Variable trim : string -> string.

(** X18: whenever a submission starts, it ends with the loading flag and
    the submitting flag off: after a parsed response, after a response
    reporting failure, after a rejected request and after an action that
    throws. *)
Theorem submit_always_ends_loading
  (p : PanelState) (w : World) (result : ParseResult) (arrival : N) :
  str_truthy (trim (panel_prompt p)) = true ->
  isSubmitting p = false ->
  isSubmitting (fst (handleSubmit trim p w result arrival)) = false /\
  isLoading (current (snd (handleSubmit trim p w result arrival))) = false.
Proof.
  intros Hprompt Hbusy. unfold handleSubmit. rewrite Hprompt, Hbusy. simpl.
  destruct result as [parsed|]; [|split; reflexivity].
  destruct (success parsed && Nat.ltb 0 (List.length (actions parsed))).
  - destruct (applyActions (current w) _ (actions parsed)) as [e [f|]];
      split; reflexivity.
  - destruct (negb (success parsed)); split; reflexivity.
Qed.

(** X19: a resolved request is recorded in the history, first and with the
    trimmed prompt, whether the response reports success or not and whether
    its actions throw or not; a rejected request leaves the history as it
    is. *)
Theorem submit_records_every_response
  (p : PanelState) (w : World) (parsed : ActionResponse) (arrival : N) :
  str_truthy (trim (panel_prompt p)) = true ->
  isSubmitting p = false ->
  let now := N.max (clock w) arrival in
  promptHistory
    (current (snd (handleSubmit trim p w (Resolved parsed) arrival))) =
    {| h_id := "prompt_" ++ show_N now;
       prompt := trim (panel_prompt p);
       response := parsed;
       timestamp := now |} :: firstn 49 (promptHistory (current w)) /\
  promptHistory (current (snd (handleSubmit trim p w Rejected arrival))) =
    promptHistory (current w).
Proof.
  intros Hprompt Hbusy now. unfold handleSubmit. rewrite Hprompt, Hbusy.
  cbn [negb orb].
  set (w1 := elapse arrival (dispatching w [SET_LOADING true])).
  assert (H1 : promptHistory (current w1) = promptHistory (current w)).
  { subst w1. now rewrite history_elapse. }
  assert (Hclock : clock w1 = now) by reflexivity.
  clearbody w1. rewrite Hclock. clear Hclock.
  split; [|exact H1].
  set (entry := {| h_id := "prompt_" ++ show_N now;
                   prompt := trim (panel_prompt p);
                   response := parsed;
                   timestamp := now |}).
  set (w2 := dispatching w1 [ADD_PROMPT_HISTORY entry]).
  assert (H2 : promptHistory (current w2) =
               entry :: firstn 49 (promptHistory (current w))).
  { subst w2. unfold dispatching. cbn [current reduce_all fold_left].
    cbn [sceneReducer promptHistory]. now rewrite H1. }
  clearbody w2.
  destruct (success parsed && Nat.ltb 0 (List.length (actions parsed))).
  - pose proof (applyActions_dispatches (current w) (clock w2)
                  (actions parsed)) as Hall.
    destruct (applyActions (current w) (clock w2) (actions parsed))
      as [e f].
    cbn [fst] in Hall.
    assert (H3 : promptHistory (reduce_all (current w2) (dispatched e)) =
                 entry :: firstn 49 (promptHistory (current w))).
    { now rewrite (history_reduce_all _ _ Hall). }
    destruct f; exact H3.
  - destruct (negb (success parsed)); exact H2.
Qed.

Lemma sceneData_while_waiting (w : World) (arrival : N) :
  sceneData (current (elapse arrival (dispatching w [SET_LOADING true]))) =
  sceneData (current (elapse arrival w)).
Proof.
  unfold elapse, dispatching. cbn [current pending].
  now apply sceneData_reduce_all.
Qed.

(** X20: a response that reports failure or carries no action, and a
    rejected request, change nothing in the scene: the scene data is what
    the time-outs that fired while the request was pending left. *)
Theorem submit_without_actions_keeps_scene
  (p : PanelState) (w : World) (parsed : ActionResponse) (arrival : N) :
  str_truthy (trim (panel_prompt p)) = true ->
  isSubmitting p = false ->
  success parsed = false \/ actions parsed = [] ->
  sceneData (current (snd (handleSubmit trim p w (Resolved parsed) arrival))) =
    sceneData (current (elapse arrival w)) /\
  sceneData (current (snd (handleSubmit trim p w Rejected arrival))) =
    sceneData (current (elapse arrival w)).
Proof.
  intros Hprompt Hbusy Hnothing. unfold handleSubmit.
  rewrite Hprompt, Hbusy. cbn [negb orb].
  assert (Hcond :
    success parsed && Nat.ltb 0 (List.length (actions parsed)) = false).
  { destruct Hnothing as [->| ->]; [reflexivity|].
    simpl. apply andb_false_r. }
  rewrite Hcond. split.
  - destruct (negb (success parsed)); simpl; apply sceneData_while_waiting.
  - simpl. apply sceneData_while_waiting.
Qed.

End PromptPanelFacts.

Lemma submit_always_ends_loading_witness :
  let p := mkPanelState "move the conveyor" false None in
  let bad := mkSceneAction "move_object" (Some "conveyor_1") no_params in
  let parsed := mkActionResponse true [bad] "Parsed 1 action" "move the conveyor" in
  let r := handleSubmit (fun s => s) p initialWorld (Resolved parsed) 40 in
  str_truthy (panel_prompt p) = true /\
  panel_error (fst r) = Some CaughtMessage /\
  isSubmitting (fst r) = false /\
  isLoading (current (snd r)) = false.
Proof.
  intros p bad parsed r.
  split; [reflexivity|]. split; [reflexivity|].
  exact (submit_always_ends_loading (fun s => s) p initialWorld
           (Resolved parsed) 40 eq_refl eq_refl).
Defined.

Lemma submit_records_every_response_witness :
  let p := mkPanelState "paint it green" false None in
  let parsed := mkActionResponse false [] "Could not parse" "paint it green" in
  let r := handleSubmit (fun s => s) p initialWorld (Resolved parsed) 40 in
  str_truthy (panel_prompt p) = true /\
  promptHistory (current (snd r)) =
    [mkPromptHistoryEntry "prompt_40" "paint it green" parsed 40].
Proof.
  intros p parsed r.
  split; [reflexivity|].
  exact (proj1 (submit_records_every_response (fun s => s) p initialWorld
                  parsed 40 eq_refl eq_refl)).
Defined.

Lemma submit_without_actions_keeps_scene_witness :
  let p := mkPanelState "paint it green" false None in
  let parsed := mkActionResponse false [] "Could not parse" "paint it green" in
  let r := handleSubmit (fun s => s) p initialWorld (Resolved parsed) 40 in
  success parsed = false /\
  panel_error (fst r) = Some (ResponseMessage "Could not parse") /\
  sceneData (current (snd r)) = createInitialScene.
Proof.
  intros p parsed r.
  split; [reflexivity|]. split; [reflexivity|].
  exact (proj1 (submit_without_actions_keeps_scene (fun s => s) p
                  initialWorld parsed 40 eq_refl eq_refl
                  (or_introl eq_refl))).
Defined.

(** ** The API token and the session *)

Lemma truthy_target_idempotent (v : option string) :
  truthy_target (truthy_target v) = truthy_target v.
Proof.
  destruct v as [t|]; [|reflexivity]. simpl.
  destruct (str_truthy t) eqn:Ht; [|reflexivity]. simpl. now rewrite Ht.
Qed.

Lemma storage_mirrors_token (storage : option string) (evs : list SessionEvent) :
  truthy_target (stored_token (service (run_session (load_page storage) evs))) =
  truthy_target (token (service (run_session (load_page storage) evs))).
Proof.
  unfold run_session.
  assert (Hinit : truthy_target (stored_token (service (load_page storage))) =
                  truthy_target (token (service (load_page storage)))).
  { simpl. now rewrite truthy_target_idempotent. }
  revert Hinit. generalize (load_page storage).
  induction evs as [|ev evs IH]; intros s Hs; [exact Hs|].
  simpl. apply IH. destruct ev; simpl.
  - destruct (str_truthy (access_token result)) eqn:Ht; [|reflexivity].
    simpl. now rewrite Ht.
  - reflexivity.
  - now rewrite truthy_target_idempotent.
Qed.

(** X21: whatever logins, logouts and reloads a session went through,
    loading the page again changes nothing for the requests: the prompt is
    posted to the same endpoint and with the same authorization header as
    before the reload. *)
Theorem reload_keeps_endpoint_and_header
  (storage : option string) (evs : list SessionEvent) :
  let s := run_session (load_page storage) evs in
  parsePrompt_endpoint (service (reload s)) = parsePrompt_endpoint (service s) /\
  authorization (service (reload s)) = authorization (service s).
Proof.
  intros s. pose proof (storage_mirrors_token storage evs) as Hinv.
  fold s in Hinv. unfold parsePrompt_endpoint, authorization, reload.
  simpl. rewrite truthy_target_idempotent, Hinv. now split.
Qed.

(** X22: after a login with a non-empty token and a reload of the page, the
    session is not authenticated any more (there is no user), while the
    token is still there: prompts go to the authenticated endpoint with the
    bearer header. *)
Theorem reload_forgets_user_keeps_token (s : Session) (result : AuthToken) :
  str_truthy (access_token result) = true ->
  let s' := reload (login_resolved s result) in
  isAuthenticated (login_resolved s result) = true /\
  isAuthenticated s' = false /\
  getToken (service s') = Some (access_token result) /\
  parsePrompt_endpoint (service s') = "/prompt" /\
  authorization (service s') = Some ("Bearer " ++ access_token result)%string.
Proof.
  intros Ht. pose proof (truthy_target_some _ Ht) as Htt.
  unfold parsePrompt_endpoint, authorization, reload, login_resolved,
    load_page, newApiService, setToken, getToken, isAuthenticated.
  cbn [service stored_token token auth_user is_some].
  rewrite !Htt. repeat split.
Qed.

Lemma reload_forgets_user_keeps_token_witness :
  let alice := mkUser 1 "alice@example.org" "alice" true "2025-01-01" in
  let result := mkAuthToken "abc.def" "bearer" alice in
  let s' := reload (login_resolved (load_page None) result) in
  str_truthy (access_token result) = true /\
  isAuthenticated s' = false /\
  authorization (service s') = Some "Bearer abc.def".
Proof.
  intros alice result s'. split; [reflexivity|].
  destruct (reload_forgets_user_keeps_token (load_page None) result eq_refl)
    as [_ [Hauth [_ [_ Hheader]]]].
  split; [exact Hauth|exact Hheader].
Defined.

(** X23: after a logout, from whatever session, there is no user, no token
    and no stored token; prompts go to the demo endpoint without any
    authorization header, and a reload leaves the session as it is. *)
Theorem logout_ends_authentication
  (storage : option string) (evs : list SessionEvent) :
  let s := logout (run_session (load_page storage) evs) in
  isAuthenticated s = false /\
  getToken (service s) = None /\
  stored_token (service s) = None /\
  parsePrompt_endpoint (service s) = "/prompt/demo" /\
  authorization (service s) = None /\
  reload s = s.
Proof. intros s. repeat split. Qed.

(** ** Generated ids *)

Lemma show_N_injective (n m : N) : show_N n = show_N m -> n = m.
Proof.
  unfold show_N. intros H.
  assert (Hu : N.to_uint n = N.to_uint m).
  { pose proof (NilEmpty.usu (N.to_uint n)) as Hn.
    pose proof (NilEmpty.usu (N.to_uint m)) as Hm.
    rewrite H in Hn. rewrite Hn in Hm. now inversion Hm. }
  exact (DecimalN.Unsigned.to_uint_inj n m Hu).
Qed.

Lemma append_injective (prefix a b : string) :
  (prefix ++ a = prefix ++ b)%string -> a = b.
Proof.
  induction prefix as [|c prefix IH]; simpl; intros H; [exact H|].
  inversion H. now apply IH.
Qed.

(** X24: two [add_object] actions without a target, applied at different
    readings of the clock, create objects with different ids; so do two
    [add_safety_zone] actions. *)
Theorem generated_ids_differ_over_time
  (s1 s2 : SceneState) (now1 now2 : N) (tgt1 tgt2 : option string)
  (ps1 ps2 : Params) (kind : string) :
  kind = "add_object" \/ kind = "add_safety_zone" ->
  truthy_target tgt1 = None ->
  truthy_target tgt2 = None ->
  now1 <> now2 ->
  exists obj1 obj2,
    applyAction s1 now1 (mkSceneAction kind tgt1 ps1) =
      Done (dispatch (ADD_OBJECT obj1)) /\
    applyAction s2 now2 (mkSceneAction kind tgt2 ps2) =
      Done (dispatch (ADD_OBJECT obj2)) /\
    id obj1 <> id obj2.
Proof.
  intros Hkind H1 H2 Hne.
  assert (Hgen : forall tgt d, truthy_target tgt = None -> opt_str_or tgt d = d).
  { intros [t|] d; simpl; [|reflexivity].
    destruct (str_truthy t); [discriminate|reflexivity]. }
  destruct Hkind as [->| ->]; eexists; eexists;
    (split; [reflexivity|]); (split; [reflexivity|]);
    simpl; rewrite (Hgen tgt1 _ H1), (Hgen tgt2 _ H2); intros Heq;
    apply Hne, show_N_injective.
  - exact (append_injective "obj_" _ _ Heq).
  - exact (append_injective "safety_zone_" _ _ Heq).
Qed.

Lemma generated_ids_differ_over_time_witness :
  exists obj1 obj2,
    applyAction initialState 1730000000123
      (mkSceneAction "add_object" None no_params) =
      Done (dispatch (ADD_OBJECT obj1)) /\
    applyAction initialState 1730000000124
      (mkSceneAction "add_object" (Some "") no_params) =
      Done (dispatch (ADD_OBJECT obj2)) /\
    id obj1 <> id obj2.
Proof.
  apply (generated_ids_differ_over_time initialState initialState
           1730000000123 1730000000124 None (Some "") no_params no_params
           "add_object" (or_introl eq_refl) eq_refl eq_refl).
  discriminate.
Defined.

(** ** The rendered objects *)

Section ThreeSceneFacts.

Variable Object3D : Type.
Variable createObjectGeometry : SceneObject -> Object3D.
Variable update_existing : Object3D -> SceneObject -> Object3D.

Let sync_one := sync_object Object3D createObjectGeometry update_existing.
Let sync_list := sync_each Object3D createObjectGeometry update_existing.

Lemma map_set_keys_in
  (k k' : string) (v : Object3D) (m : ObjectMap Object3D) :
  In k' (map_keys _ (map_set _ k v m)) <-> k' = k \/ In k' (map_keys _ m).
Proof.
  unfold map_keys. induction m as [|[k0 v0] m IH]; simpl.
  - intuition congruence.
  - destruct (String.eqb_spec k0 k) as [->|Hne]; simpl.
    + intuition congruence.
    + rewrite IH. tauto.
Qed.

Lemma map_set_keys_NoDup
  (k : string) (v : Object3D) (m : ObjectMap Object3D) :
  NoDup (map_keys _ m) -> NoDup (map_keys _ (map_set _ k v m)).
Proof.
  unfold map_keys. induction m as [|[k0 v0] m IH]; simpl; intros Hnd.
  - constructor; [tauto|constructor].
  - inversion Hnd as [|? ? Hnotin Hnd']; subst.
    destruct (String.eqb_spec k0 k) as [->|Hne]; simpl.
    + now constructor.
    + constructor; [|now apply IH].
      intros Hin. apply (map_set_keys_in k k0 v m) in Hin.
      destruct Hin as [Heq|Hin]; [congruence|contradiction].
Qed.

Lemma sync_one_done
  (m m' : ObjectMap Object3D) (obj : SceneObject) :
  sync_one m obj = Done m' ->
  exists v, m' = map_set _ (id obj) v m.
Proof.
  unfold sync_one, sync_object.
  destruct (map_get _ (id obj) m), (position obj); intros H; inversion H;
    eexists; reflexivity.
Qed.

Lemma sync_one_throws_iff (m : ObjectMap Object3D) (obj : SceneObject) :
  sync_one m obj = Failed TypeError <-> position obj = None.
Proof.
  unfold sync_one, sync_object.
  destruct (map_get _ (id obj) m), (position obj); split; intros H;
    try reflexivity; discriminate.
Qed.

Lemma sync_list_NoDup (objs : list SceneObject) (m : ObjectMap Object3D) :
  NoDup (map_keys _ m) -> NoDup (map_keys _ (fst (sync_list m objs))).
Proof.
  revert m. induction objs as [|obj objs IH]; intros m Hnd; simpl;
    [exact Hnd|].
  fold sync_one. destruct (sync_one m obj) as [m'|f] eqn:Hone; [|exact Hnd].
  apply IH. destruct (sync_one_done _ _ _ Hone) as [v ->].
  now apply map_set_keys_NoDup.
Qed.

Lemma sync_list_keys_from
  (objs : list SceneObject) (m : ObjectMap Object3D) (k : string) :
  In k (map_keys _ (fst (sync_list m objs))) ->
  In k (map_keys _ m) \/ In k (map id objs).
Proof.
  revert m. induction objs as [|obj objs IH]; intros m; simpl; [tauto|].
  fold sync_one. destruct (sync_one m obj) as [m'|f] eqn:Hone; [|tauto].
  intros Hin. destruct (IH _ Hin) as [Hm'|Hrest]; [|tauto].
  destruct (sync_one_done _ _ _ Hone) as [v ->].
  apply map_set_keys_in in Hm'. intuition congruence.
Qed.

Lemma sync_list_keys_all
  (objs : list SceneObject) (m : ObjectMap Object3D) (k : string) :
  snd (sync_list m objs) = None ->
  In k (map_keys _ m) \/ In k (map id objs) ->
  In k (map_keys _ (fst (sync_list m objs))).
Proof.
  revert m. induction objs as [|obj objs IH]; intros m; simpl; [tauto|].
  fold sync_one.
  destruct (sync_one m obj) as [m'|f] eqn:Hone; [|discriminate].
  intros Hok Hin. apply (IH _ Hok).
  destruct (sync_one_done _ _ _ Hone) as [v ->].
  rewrite map_set_keys_in. intuition congruence.
Qed.

Lemma sync_list_ends_normally_iff
  (objs : list SceneObject) (m : ObjectMap Object3D) :
  snd (sync_list m objs) = None <->
  forall obj, In obj objs -> position obj <> None.
Proof.
  revert m. induction objs as [|obj objs IH]; intros m; simpl.
  - split; [intros _ obj []|reflexivity].
  - fold sync_one. destruct (sync_one m obj) as [m'|[]] eqn:Hone.
    + rewrite IH. split.
      * intros Hrest o [<-|Hin]; [|now apply Hrest].
        intros Hnone. apply (sync_one_throws_iff m) in Hnone. congruence.
      * intros Hall o Hin. apply Hall. now right.
    + apply sync_one_throws_iff in Hone. split; [discriminate|].
      intros Hall. exfalso. exact (Hall obj (or_introl eq_refl) Hone).
Qed.

Lemma filter_keys_NoDup
  (f : string * Object3D -> bool) (m : ObjectMap Object3D) :
  NoDup (map_keys _ m) -> NoDup (map_keys _ (filter f m)).
Proof.
  unfold map_keys. induction m as [|e m IH]; simpl; intros Hnd; [exact Hnd|].
  inversion Hnd as [|? ? Hnotin Hnd']; subst.
  destruct (f e); simpl; [|now apply IH].
  constructor; [|now apply IH].
  intros Hin. apply Hnotin. apply in_map_iff in Hin.
  destruct Hin as [e' [He' Hin]]. apply filter_In in Hin.
  apply in_map_iff. exists e'. tauto.
Qed.

Lemma kept_keys_in_scene
  (sceneObjects : list SceneObject) (m : ObjectMap Object3D) (k : string) :
  In k (map_keys _
          (filter (fun entry =>
                     existsb (String.eqb (fst entry)) (map id sceneObjects))
             m)) ->
  In k (map id sceneObjects).
Proof.
  unfold map_keys. intros Hin. apply in_map_iff in Hin.
  destruct Hin as [[k0 v0] [Hk Hin]]. simpl in Hk. subst k0.
  apply filter_In in Hin. destruct Hin as [_ Hex]. simpl in Hex.
  apply existsb_exists in Hex. destruct Hex as [k' [Hin' Heq]].
  apply String.eqb_eq in Heq. now subst k'.
Qed.

(** X25: the effect that follows the scene objects ends normally exactly
    when every scene object has a position; then the map of rendered
    objects has exactly the ids of the scene objects as its keys, each of
    them once: objects that left the scene are dropped, new ones are
    created, and scene objects that share an id share one rendered object.
    When it throws, the keys are still distinct ids of scene objects. *)
Theorem rendered_objects_follow_scene
  (m : ObjectMap Object3D) (sceneObjects : list SceneObject) :
  NoDup (map_keys _ m) ->
  let result :=
    sync_objects Object3D createObjectGeometry update_existing m sceneObjects in
  NoDup (map_keys _ (fst result)) /\
  (forall k, In k (map_keys _ (fst result)) -> In k (map id sceneObjects)) /\
  (snd result = None <->
   forall obj, In obj sceneObjects -> position obj <> None) /\
  (snd result = None ->
   forall k, In k (map id sceneObjects) -> In k (map_keys _ (fst result))).
Proof.
  intros Hnd result. subst result. unfold sync_objects. fold sync_list.
  split; [|split; [|split]].
  - apply sync_list_NoDup. now apply filter_keys_NoDup.
  - intros k Hin. apply sync_list_keys_from in Hin.
    destruct Hin as [Hin|Hin]; [|exact Hin].
    exact (kept_keys_in_scene _ _ _ Hin).
  - apply sync_list_ends_normally_iff.
  - intros Hok k Hin. apply (sync_list_keys_all _ _ _ Hok). now right.
Qed.

End ThreeSceneFacts.

Lemma rendered_objects_follow_scene_witness :
  let doubled :=
    scene_objects
      (current (fst (handle initialWorld
         [mkSceneAction "add_object" (Some "conveyor_1") no_params]))) in
  let result := sync_objects SceneObject (fun obj => obj) (fun _ obj => obj)
                  [] doubled in
  map id doubled = ["conveyor_1"; "robot_arm_1"; "conveyor_1"] /\
  map_keys _ (fst result) = ["conveyor_1"; "robot_arm_1"] /\
  snd result = None /\
  NoDup (map_keys _ (fst result)).
Proof.
  intros doubled result.
  split; [reflexivity|]. split; [reflexivity|]. split; [reflexivity|].
  exact (proj1 (rendered_objects_follow_scene SceneObject (fun obj => obj)
                  (fun _ obj => obj) [] doubled (NoDup_nil string))).
Defined.


(** ** The camera pose and the environment *)


